(** * A contact book assistant: validation, records, address book, handlers

    Shallow embedding of [bot_assistant.py] and the properties of its
    field validators, its address book and its command handlers.

    Conventions of the embedding:
    - a Python [str] is the list of its Unicode code points;
    - an exception is a value of [exn]; a computation that may raise
      returns a [result];
    - the address book is threaded explicitly through the handlers, and
      the state reached when an exception is raised is kept, as Python
      keeps it;
    - the calendar date of the call ([datetime.today().date()]) is an
      argument of the functions that read it. *)

From Stdlib Require Import ZArith NArith List String Ascii Bool Lia.
From Stdlib Require Import DecimalString.
Import ListNotations.

Local Open Scope Z_scope.

(* ================================================================= *)
(** * Python strings *)

Module PyStr.

(** A string is the sequence of its code points. *)
Definition pystr : Type := list N.

(** The string denoted by a source literal (all literals of the program
    are Basic Latin, where code point and byte coincide). *)
Definition lit (s : string) : pystr :=
  map N_of_ascii (list_ascii_of_string s).

Fixpoint eqb (s t : pystr) : bool :=
  match s, t with
  | [], [] => true
  | a :: s', b :: t' => N.eqb a b && eqb s' t'
  | _, _ => false
  end.

(** [sep.join(parts)] *)
Fixpoint join (sep : pystr) (parts : list pystr) : pystr :=
  match parts with
  | [] => []
  | [p] => p
  | p :: rest => p ++ sep ++ join sep rest
  end.

(** [str(n)] for an integer. *)
Definition of_Z (n : Z) : pystr :=
  lit (NilZero.string_of_int (Z.to_int n)).

(** ** The Unicode tables behind [str.isdigit], [\d] and [int] *)

Definition in_ranges (tbl : list (N * N)) (c : N) : bool :=
  existsb (fun r => N.leb (fst r) c && N.leb c (snd r)) tbl.

(** Code points whose Numeric_Type is Decimal: general category Nd
    (Unicode 14.0.0, the database of CPython 3.11).  Every range starts
    at a digit zero and is made of runs of ten consecutive digits. *)
Definition decimal_ranges : list (N * N) :=
  [ (48, 57); (1632, 1641); (1776, 1785); (1984, 1993); (2406, 2415);
    (2534, 2543); (2662, 2671); (2790, 2799); (2918, 2927); (3046, 3055);
    (3174, 3183); (3302, 3311); (3430, 3439); (3558, 3567); (3664, 3673);
    (3792, 3801); (3872, 3881); (4160, 4169); (4240, 4249); (6112, 6121);
    (6160, 6169); (6470, 6479); (6608, 6617); (6784, 6793); (6800, 6809);
    (6992, 7001); (7088, 7097); (7232, 7241); (7248, 7257); (42528, 42537);
    (43216, 43225); (43264, 43273); (43472, 43481); (43504, 43513);
    (43600, 43609); (44016, 44025); (65296, 65305); (66720, 66729);
    (68912, 68921); (69734, 69743); (69872, 69881); (69942, 69951);
    (70096, 70105); (70384, 70393); (70736, 70745); (70864, 70873);
    (71248, 71257); (71360, 71369); (71472, 71481); (71904, 71913);
    (72016, 72025); (72784, 72793); (73040, 73049); (73120, 73129);
    (92768, 92777); (92864, 92873); (93008, 93017); (120782, 120831);
    (123200, 123209); (123632, 123641); (125264, 125273);
    (130032, 130041) ]%N.

(** Code points whose Numeric_Type is Digit but not Decimal: superscripts
    (U+00B2, U+00B3, U+00B9, ...), subscripts, circled and parenthesised
    digits and the like. *)
Definition other_digit_ranges : list (N * N) :=
  [ (178, 179); (185, 185); (4969, 4977); (6618, 6618); (8304, 8304);
    (8308, 8313); (8320, 8329); (9312, 9320); (9332, 9340); (9352, 9360);
    (9450, 9450); (9461, 9469); (9471, 9471); (10102, 10110);
    (10112, 10120); (10122, 10130); (68160, 68163); (69216, 69224);
    (69714, 69722); (127232, 127242) ]%N.

(** [c.isdecimal()], which is also what [\d] matches in a [str] pattern. *)
Definition isdecimal_cp (c : N) : bool := in_ranges decimal_ranges c.

(** [c.isdigit()] for one character: Numeric_Type Digit or Decimal. *)
Definition isdigit_cp (c : N) : bool :=
  in_ranges decimal_ranges c || in_ranges other_digit_ranges c.

(** [s.isdigit()]: every character is a digit and there is at least one. *)
Definition isdigit (s : pystr) : bool :=
  match s with
  | [] => false
  | _ => forallb isdigit_cp s
  end.

(** The ten characters [0] to [9] of Basic Latin. *)
Definition is_ascii_digit (c : N) : bool :=
  N.leb 48 c && N.leb c 57.

(** The value of a decimal character, as [int] reads it. *)
Definition decimal_value (c : N) : option Z :=
  match find (fun r => N.leb (fst r) c && N.leb c (snd r)) decimal_ranges with
  | Some r => Some (Z.of_N ((c - fst r) mod 10))
  | None => None
  end.

(** [int(s)] on a string of decimal characters, most significant first. *)
Fixpoint int_digits (acc : Z) (s : pystr) : option Z :=
  match s with
  | [] => Some acc
  | c :: s' =>
      match decimal_value c with
      | Some v => int_digits (10 * acc + v) s'
      | None => None
      end
  end.

End PyStr.

Import PyStr.

(** The operations on strings that rest on the whole Unicode database
    and whose tables play no part below: [str.lower] and [repr].  The
    development is parametric in them, so every general theorem holds for
    Python's own functions. *)
Class UnicodeOps : Type := {
  lower : pystr -> pystr;
  repr : pystr -> pystr
}.

(** An instance that is exact on Basic Latin text without quotes,
    backslashes or control characters; the closed examples use it on such
    text only. *)
Definition basic_latin : UnicodeOps := {|
  lower := map (fun c => if N.leb 65 c && N.leb c 90 then (c + 32)%N else c);
  repr := fun s => lit "'" ++ s ++ lit "'"
|}.

(* ================================================================= *)
(** * Exceptions *)

Inductive exn : Type :=
| ValueError (msg : pystr)
| KeyError
| IndexError
| TypeError
| OverflowError (msg : pystr).

Inductive result (A : Type) : Type :=
| Ok (a : A)
| Raise (e : exn).

Arguments Ok {A} a.
Arguments Raise {A} e.

Definition rbind {A B} (r : result A) (k : A -> result B) : result B :=
  match r with
  | Ok a => k a
  | Raise e => Raise e
  end.

Declare Scope result_scope.
Delimit Scope result_scope with result.
Notation "x <- r ;; k" := (rbind r (fun x => k))
  (at level 61, r at next level, right associativity) : result_scope.

(* ================================================================= *)
(** * The [datetime] library: dates of the proleptic Gregorian calendar *)

Module Datetime.

Record date : Type := mkdate { year : Z; month : Z; day : Z }.

Definition MINYEAR : Z := 1.
Definition MAXYEAR : Z := 9999.

Definition is_leap (y : Z) : bool :=
  (y mod 4 =? 0) && (negb (y mod 100 =? 0) || (y mod 400 =? 0)).

(** Days of each month in a common year. *)
Definition DAYS_IN_MONTH (m : Z) : Z :=
  match m with
  | 1 => 31 | 2 => 28 | 3 => 31 | 4 => 30 | 5 => 31 | 6 => 30
  | 7 => 31 | 8 => 31 | 9 => 30 | 10 => 31 | 11 => 30 | 12 => 31
  | _ => 0
  end.

Definition days_in_month (y m : Z) : Z :=
  if (m =? 2) && is_leap y then 29 else DAYS_IN_MONTH m.

(** Days of the year before the first of month [m], leap day apart. *)
Definition DAYS_BEFORE_MONTH (m : Z) : Z :=
  match m with
  | 1 => 0 | 2 => 31 | 3 => 59 | 4 => 90 | 5 => 120 | 6 => 151
  | 7 => 181 | 8 => 212 | 9 => 243 | 10 => 273 | 11 => 304 | 12 => 334
  | _ => 0
  end.

Definition days_before_month (y m : Z) : Z :=
  DAYS_BEFORE_MONTH m + (if (2 <? m) && is_leap y then 1 else 0).

Definition days_before_year (y : Z) : Z :=
  let p := y - 1 in p * 365 + p / 4 - p / 100 + p / 400.

(** Well-formed dates, the only ones the library builds. *)
Definition valid (d : date) : Prop :=
  MINYEAR <= year d <= MAXYEAR /\ 1 <= month d <= 12 /\
  1 <= day d <= days_in_month (year d) (month d).

(** [date(y, m, d)] *)
Definition date_new (y m d : Z) : result date :=
  if negb ((MINYEAR <=? y) && (y <=? MAXYEAR)) then
    Raise (ValueError (lit "year " ++ PyStr.of_Z y ++ lit " is out of range"))
  else if negb ((1 <=? m) && (m <=? 12)) then
    Raise (ValueError (lit "month must be in 1..12"))
  else if negb ((1 <=? d) && (d <=? days_in_month y m)) then
    Raise (ValueError (lit "day is out of range for month"))
  else Ok (mkdate y m d).

(** [d.replace(year=y)] *)
Definition replace_year (d : date) (y : Z) : result date :=
  date_new y (month d) (day d).

(** [d.toordinal()]: 1 January of year 1 is day 1. *)
Definition toordinal (d : date) : Z :=
  days_before_year (year d) + days_before_month (year d) (month d) + day d.

Definition MAXORDINAL : Z := 3652059.

Definition DI400Y : Z := 146097.
Definition DI100Y : Z := 36524.
Definition DI4Y : Z := 1461.

(** The month and the day of the day number [n] of a year, counted from
    zero (the second half of [_ord2ymd]). *)
Definition ord2md (n : Z) (leapyear : bool) : Z * Z :=
  let m := Z.shiftr (n + 50) 5 in
  let preceding :=
    DAYS_BEFORE_MONTH m + (if (2 <? m) && leapyear then 1 else 0) in
  if n <? preceding then
    let m' := m - 1 in
    let preceding' :=
      preceding
      - (DAYS_IN_MONTH m' + (if (m' =? 2) && leapyear then 1 else 0)) in
    (m', n - preceding' + 1)
  else (m, n - preceding + 1).

(** The date of an ordinal ([_ord2ymd]): cycles of 400, 100, 4 and 1
    years, then the month and the day. *)
Definition ord2ymd (n : Z) : date :=
  let n := n - 1 in
  let n400 := n / DI400Y in
  let n := n mod DI400Y in
  let n100 := n / DI100Y in
  let n := n mod DI100Y in
  let n4 := n / DI4Y in
  let n := n mod DI4Y in
  let n1 := n / 365 in
  let n := n mod 365 in
  let y := n400 * 400 + 1 + n100 * 100 + n4 * 4 + n1 in
  if (n1 =? 4) || (n100 =? 4) then mkdate (y - 1) 12 31
  else
    let leapyear := (n1 =? 3) && (negb (n4 =? 24) || (n100 =? 3)) in
    let md := ord2md n leapyear in
    mkdate y (fst md) (snd md).

(** [d + timedelta(days=k)] *)
Definition add_days (d : date) (k : Z) : result date :=
  let n := toordinal d + k in
  if (1 <=? n) && (n <=? MAXORDINAL) then Ok (ord2ymd n)
  else Raise (OverflowError (lit "date value out of range")).

(** [(a - b).days] *)
Definition sub_days (a b : date) : Z := toordinal a - toordinal b.

(** [d.weekday()]: Monday is 0, Sunday is 6. *)
Definition weekday (d : date) : Z := (toordinal d + 6) mod 7.

(** [a < b]: dates compare as (year, month, day). *)
Definition ltb (a b : date) : bool :=
  (year a <? year b)
  || ((year a =? year b)
      && ((month a <? month b)
          || ((month a =? month b) && (day a <? day b)))).

End Datetime.

Import Datetime.
Local Open Scope result_scope.

(* ================================================================= *)
(** * [datetime.strptime(value, "%d.%m.%Y")] and [strftime("%d.%m.%Y")] *)

Section Strptime.

Context {U : UnicodeOps}.

Definition in_range (lo hi c : N) : bool := N.leb lo c && N.leb c hi.

(** First alternative that matches, as a backtracking matcher tries them. *)
Definition orelse {A} (x y : option A) : option A :=
  match x with
  | Some a => Some a
  | None => y
  end.

(** The directive patterns of [_strptime.TimeRE].  Each matcher takes the
    rest of the pattern as a continuation [k], applied to the text of the
    group and to the input that is left, and backtracks to its next
    alternative when the continuation fails.

    [%d] is [3[0-1]|[1-2]\d|0[1-9]|[1-9]| [1-9]]. *)
Definition re_d {A} (s : pystr) (k : pystr -> pystr -> option A) : option A :=
  orelse
    (match s with
     | a :: b :: r => if N.eqb a 51 && in_range 48 49 b then k [a; b] r else None
     | _ => None
     end)
  (orelse
    (match s with
     | a :: b :: r => if in_range 49 50 a && isdecimal_cp b then k [a; b] r else None
     | _ => None
     end)
  (orelse
    (match s with
     | a :: b :: r => if N.eqb a 48 && in_range 49 57 b then k [a; b] r else None
     | _ => None
     end)
  (orelse
    (match s with
     | a :: r => if in_range 49 57 a then k [a] r else None
     | _ => None
     end)
    (match s with
     | a :: b :: r => if N.eqb a 32 && in_range 49 57 b then k [a; b] r else None
     | _ => None
     end)))).

(** [%m] is [1[0-2]|0[1-9]|[1-9]]. *)
Definition re_m {A} (s : pystr) (k : pystr -> pystr -> option A) : option A :=
  orelse
    (match s with
     | a :: b :: r => if N.eqb a 49 && in_range 48 50 b then k [a; b] r else None
     | _ => None
     end)
  (orelse
    (match s with
     | a :: b :: r => if N.eqb a 48 && in_range 49 57 b then k [a; b] r else None
     | _ => None
     end)
    (match s with
     | a :: r => if in_range 49 57 a then k [a] r else None
     | _ => None
     end)).

(** [%Y] is [\d\d\d\d]. *)
Definition re_Y {A} (s : pystr) (k : pystr -> pystr -> option A) : option A :=
  match s with
  | a :: b :: c :: d :: r =>
      if isdecimal_cp a && isdecimal_cp b && isdecimal_cp c && isdecimal_cp d
      then k [a; b; c; d] r else None
  | _ => None
  end.

(** The escaped full stop of the format. *)
Definition re_dot {A} (s : pystr) (k : pystr -> option A) : option A :=
  match s with
  | a :: r => if N.eqb a 46 then k r else None
  | _ => None
  end.

(** [format_regex.match(data_string)]: the three groups and the input
    after the end of the match. *)
Definition format_regex_match (s : pystr)
  : option (pystr * pystr * pystr * pystr) :=
  re_d s (fun d r1 =>
  re_dot r1 (fun r2 =>
  re_m r2 (fun m r3 =>
  re_dot r3 (fun r4 =>
  re_Y r4 (fun y r5 => Some (d, m, y, r5)))))).

(** [int(s)] on the text of a group: decimal characters, after the one
    blank a group can hold, the space that [%d] allows in front of a
    day. *)
Definition lstrip_space (s : pystr) : pystr :=
  match s with
  | c :: s' => if N.eqb c 32 then s' else s
  | [] => s
  end.

Definition int_value (s : pystr) : option Z :=
  match lstrip_space s with
  | [] => None
  | body => int_digits 0 body
  end.

Definition int (s : pystr) : result Z :=
  match int_value s with
  | Some n => Ok n
  | None => Raise (ValueError
              (lit "invalid literal for int() with base 10: " ++ repr s))
  end.

(** [datetime.strptime(data_string, "%d.%m.%Y").date()] *)
Definition strptime (data_string : pystr) : result date :=
  match format_regex_match data_string with
  | None =>
      Raise (ValueError (lit "time data " ++ repr data_string
                         ++ lit " does not match format '%d.%m.%Y'"))
  | Some (d, m, y, rest) =>
      match rest with
      | _ :: _ => Raise (ValueError (lit "unconverted data remains: " ++ rest))
      | [] =>
          d' <- int d ;;
          m' <- int m ;;
          y' <- int y ;;
          date_new y' m' d'
      end
  end.

End Strptime.

(** Two decimal digits, zero-padded ([%d] and [%m] of [strftime]). *)
Definition two_digits (n : Z) : pystr :=
  [Z.to_N (48 + n / 10); Z.to_N (48 + n mod 10)].

(** [d.strftime("%d.%m.%Y")].  The C library writes the year as a plain
    decimal number: four digits from year 1000 on. *)
Definition strftime (d : date) : pystr :=
  two_digits (day d) ++ lit "." ++ two_digits (month d) ++ lit "."
  ++ PyStr.of_Z (year d).

(* ================================================================= *)
(** * Insertion-ordered dictionaries keyed by strings *)

Definition dict (V : Type) : Type := list (pystr * V).

Section Dict.

Context {V : Type}.

(** [d.get(k)] *)
Fixpoint dict_get (d : dict V) (k : pystr) : option V :=
  match d with
  | [] => None
  | (k', v) :: d' => if PyStr.eqb k' k then Some v else dict_get d' k
  end.

(** [d[k] = v]: an existing key keeps its place, a new one goes last. *)
Fixpoint dict_set (d : dict V) (k : pystr) (v : V) : dict V :=
  match d with
  | [] => [(k, v)]
  | (k', v') :: d' =>
      if PyStr.eqb k' k then (k', v) :: d' else (k', v') :: dict_set d' k v
  end.

(** [del d[k]] for a key that is present, nothing otherwise. *)
Fixpoint dict_del (d : dict V) (k : pystr) : dict V :=
  match d with
  | [] => []
  | (k', v') :: d' =>
      if PyStr.eqb k' k then d' else (k', v') :: dict_del d' k
  end.

(** [d.values()], in insertion order. *)
Definition dict_values (d : dict V) : list V := map snd d.

End Dict.

(* ================================================================= *)
(** * Fields and records *)

Section Bot.

Context {U : UnicodeOps}.

(** [Name(value)]: the validated value, or the exception raised. *)
Definition Name (value : pystr) : result pystr :=
  match value with
  | [] => Raise (ValueError (lit "Name can't be empty"))
  | _ => Ok value
  end.

(** [Phone(value)] *)
Definition Phone (value : pystr) : result pystr :=
  if negb (isdigit value && Nat.eqb (List.length value) 10) then
    Raise (ValueError (lit "Phone number must be 10 digits"))
  else Ok value.

(** [Birthday(value)]: any [ValueError] of [strptime] is replaced. *)
Definition Birthday (value : pystr) : result pystr :=
  match strptime value with
  | Ok _ => Ok value
  | Raise (ValueError _) =>
      Raise (ValueError (lit "Invalid date format. Use DD.MM.YYYY"))
  | Raise e => Raise e
  end.

(** A contact: the values of its name, of its phones in order, and of
    its birthday when it has one. *)
Record record : Type := mkRecord {
  name : pystr;
  phones : list pystr;
  birthday : option pystr
}.

(** [Record(name)] *)
Definition Record_init (nm : pystr) : result record :=
  n <- Name nm ;;
  Ok (mkRecord n [] None).

(** The methods that change a record return its new state. *)
Definition add_phone (self : record) (phone : pystr) : result record :=
  p <- Phone phone ;;
  Ok (mkRecord (name self) (phones self ++ [p]) (birthday self)).

Definition remove_phone (self : record) (phone : pystr) : record :=
  mkRecord (name self)
           (filter (fun p => negb (PyStr.eqb p phone)) (phones self))
           (birthday self).

(** The loop of [edit_phone] over the phones: the first one equal to
    [old_phone] takes the validated new value. *)
Fixpoint edit_phone_loop (ps : list pystr) (old_phone new_phone : pystr)
  : result (list pystr) :=
  match ps with
  | [] => Raise (ValueError (lit "Phone number not found"))
  | p :: ps' =>
      if PyStr.eqb p old_phone then
        v <- Phone new_phone ;;
        Ok (v :: ps')
      else
        ps'' <- edit_phone_loop ps' old_phone new_phone ;;
        Ok (p :: ps'')
  end.

Definition edit_phone (self : record) (old_phone new_phone : pystr)
  : result record :=
  ps <- edit_phone_loop (phones self) old_phone new_phone ;;
  Ok (mkRecord (name self) ps (birthday self)).

Definition find_phone (self : record) (phone : pystr) : option pystr :=
  List.find (fun p => PyStr.eqb p phone) (phones self).

Definition add_birthday_to (self : record) (b : pystr) : result record :=
  v <- Birthday b ;;
  Ok (mkRecord (name self) (phones self) (Some v)).

(** [str(record)] *)
Definition record_str (self : record) : pystr :=
  lit "Contact name: " ++ name self ++ lit ", Phones: "
  ++ join (lit "; ") (phones self)
  ++ match birthday self with
     | Some b => lit ", Birthday: " ++ b
     | None => []
     end.

(* ================================================================= *)
(** * The address book *)

(** [AddressBook.data] *)
Definition AddressBook : Type := dict record.

(** [book.add_record(record)]: the key is the name as it was given. *)
Definition add_record (book : AddressBook) (r : record) : AddressBook :=
  dict_set book (name r) r.

(** [book.find(name)]: the key looked up is the lowercased name. *)
Definition find (book : AddressBook) (nm : pystr) : option record :=
  dict_get book (lower nm).

(** [book.delete(name)] *)
Definition delete (book : AddressBook) (nm : pystr) : AddressBook :=
  dict_del book nm.

(** One entry of the list of upcoming birthdays. *)
Record entry : Type := mkEntry {
  entry_name : pystr;
  entry_birthday : pystr
}.

(** The body of the loop of [get_upcoming_birthdays] for one record:
    the entry it appends, if any. *)
Definition upcoming_of (today : date) (r : record) : result (option entry) :=
  match birthday r with
  | None => Ok None
  | Some b =>
      parsed <- strptime b ;;
      bday <- replace_year parsed (year today) ;;
      bday <- (if Datetime.ltb bday today
               then replace_year bday (year today + 1) else Ok bday) ;;
      if (0 <=? sub_days bday today) && (sub_days bday today <=? 7) then
        congrats_day <- (if 5 <=? weekday bday
                         then add_days bday (7 - weekday bday)
                         else Ok bday) ;;
        Ok (Some (mkEntry (name r) (strftime congrats_day)))
      else Ok None
  end.

Fixpoint upcoming_loop (today : date) (rs : list record)
                       (upcoming_birthdays : list entry)
  : result (list entry) :=
  match rs with
  | [] => Ok upcoming_birthdays
  | r :: rs' =>
      e <- upcoming_of today r ;;
      upcoming_loop today rs'
        (match e with
         | Some x => upcoming_birthdays ++ [x]
         | None => upcoming_birthdays
         end)
  end.

(** [book.get_upcoming_birthdays()], called on the day [today]. *)
Definition get_upcoming_birthdays (today : date) (book : AddressBook)
  : result (list entry) :=
  upcoming_loop today (dict_values book) [].

(** [str(book)] *)
Definition book_str (book : AddressBook) : pystr :=
  join [10%N] (map record_str (dict_values book)).

End Bot.

(* ================================================================= *)
(** * Command handlers *)

(** A handler runs on the address book and changes it in place: it
    returns a value or raises, and in both cases leaves a book. *)
Definition M (A : Type) : Type := AddressBook -> result A * AddressBook.

Definition ret {A} (a : A) : M A := fun book => (Ok a, book).

Definition bind {A B} (m : M A) (k : A -> M B) : M B :=
  fun book =>
    match m book with
    | (Ok a, book') => k a book'
    | (Raise e, book') => (Raise e, book')
    end.

(** A computation that does not touch the book. *)
Definition lift {A} (r : result A) : M A := fun book => (r, book).

Definition get_book : M AddressBook := fun book => (Ok book, book).

Declare Scope M_scope.
Delimit Scope M_scope with M.
Notation "x <- m ;; k" := (bind m (fun x => k))
  (at level 61, m at next level, right associativity) : M_scope.

(** A record is an object shared between the book and the handler that
    looked it up or created it.  Every record of the book is stored under
    one key, so a reference to it is that key, paired with the state of
    the object when the reference was taken. *)
Definition ref : Type := pystr * record.

(** A method call on a referenced record: the object changes where it is
    stored, unless the method raises. *)
Definition call (obj : ref) (method : record -> result record) : M unit :=
  fun book =>
    match method (snd obj) with
    | Ok r' => (Ok tt, dict_set book (fst obj) r')
    | Raise e => (Raise e, book)
    end.

(** [book.add_record(record)] *)
Definition book_add_record (r : record) : M ref :=
  fun book => (Ok (name r, r), add_record book r).

(** [a, b = l] *)
Definition unpack2 (l : list pystr) : result (pystr * pystr) :=
  match l with
  | [a; b] => Ok (a, b)
  | _ => Raise (ValueError
           (lit "not enough values to unpack (expected 2, got "
            ++ PyStr.of_Z (Z.of_nat (List.length l)) ++ lit ")"))
  end.

(** [a, b, c = l] *)
Definition unpack3 (l : list pystr) : result (pystr * pystr * pystr) :=
  match l with
  | [a; b; c] => Ok (a, b, c)
  | _ => Raise (ValueError
           (lit "not enough values to unpack (expected 3, got "
            ++ PyStr.of_Z (Z.of_nat (List.length l)) ++ lit ")"))
  end.

(** [args[0]] *)
Definition first_arg (args : list pystr) : result pystr :=
  match args with
  | a :: _ => Ok a
  | [] => Raise IndexError
  end.

Definition default_error_message : pystr :=
  lit "Invalid input. Please provide the correct arguments.".

(** The decorator [input_error(required_args, error_message)]: the
    exceptions it names become the string the handler returns; any other
    one goes up to the caller. *)
Definition input_error (required_args : nat) (error_message : pystr)
                       (func : list pystr -> M pystr)
  : list pystr -> M pystr :=
  fun args book =>
    let '(r, book') :=
      if Nat.ltb 0 required_args
         && Nat.ltb (List.length args) required_args
      then (Raise (ValueError error_message), book)
      else func args book in
    (match r with
     | Ok s => Ok s
     | Raise (ValueError msg) => Ok msg
     | Raise KeyError => Ok (lit "This contact doesn't exist.")
     | Raise IndexError => Ok default_error_message
     | Raise TypeError => Ok (lit "Invalid argument type provided.")
     | Raise e => Raise e
     end, book').

Section Handlers.

Context {U : UnicodeOps}.
Local Open Scope M_scope.

(** [book.find(name)] as the handlers use it. *)
Definition book_find (nm : pystr) : M (option ref) :=
  fun book =>
    (Ok (match find book nm with
         | Some r => Some (lower nm, r)
         | None => None
         end), book).

Definition add_contact_func (args : list pystr) : M pystr :=
  p <- lift (unpack2 (firstn 2 args)) ;;
  let '(nm, phone) := p in
  found <- book_find nm ;;
  rm <- match found with
        | None =>
            r <- lift (Record_init nm) ;;
            rcd <- book_add_record r ;;
            ret (rcd, lit "Contact added.")
        | Some rcd => ret (rcd, lit "Contact updated.")
        end ;;
  let '(rcd, message) := rm in
  _ <- call rcd (fun self => add_phone self phone) ;;
  ret message.

Definition add_contact : list pystr -> M pystr :=
  input_error 2 (lit "Write name and phone, please") add_contact_func.

Definition change_contact_func (args : list pystr) : M pystr :=
  p <- lift (unpack3 (firstn 3 args)) ;;
  let '(nm, old_phone, new_phone) := p in
  found <- book_find nm ;;
  match found with
  | Some rcd =>
      _ <- call rcd (fun self => edit_phone self old_phone new_phone) ;;
      ret (lit "Phone number updated.")
  | None => ret (lit "Contact not found.")
  end.

Definition change_contact : list pystr -> M pystr :=
  input_error 3 (lit "Write name, old phone, and new phone, please")
              change_contact_func.

Definition show_phone_func (args : list pystr) : M pystr :=
  nm <- lift (first_arg args) ;;
  found <- book_find nm ;;
  match found with
  | Some rcd => ret (join (lit ", ") (phones (snd rcd)))
  | None => ret (lit "Contact not found.")
  end.

Definition show_phone : list pystr -> M pystr :=
  input_error 1 (lit "Write name, please") show_phone_func.

Definition show_all_func (args : list pystr) : M pystr :=
  book <- get_book ;;
  match book with
  | [] => ret (lit "Address book is empty.")
  | _ => ret (book_str book)
  end.

Definition show_all : list pystr -> M pystr :=
  input_error 0 default_error_message show_all_func.

Definition add_birthday_func (args : list pystr) : M pystr :=
  p <- lift (unpack2 (firstn 2 args)) ;;
  let '(nm, b) := p in
  found <- book_find nm ;;
  match found with
  | Some rcd =>
      _ <- call rcd (fun self => add_birthday_to self b) ;;
      ret (lit "Birthday added.")
  | None => ret (lit "Contact not found.")
  end.

Definition add_birthday : list pystr -> M pystr :=
  input_error 2 (lit "Write name and birthday, please") add_birthday_func.

Definition show_birthday_func (args : list pystr) : M pystr :=
  nm <- lift (first_arg args) ;;
  found <- book_find nm ;;
  match found with
  | Some (_, mkRecord _ _ (Some b)) => ret b
  | _ => ret (lit "No birthday found.")
  end.

Definition show_birthday : list pystr -> M pystr :=
  input_error 1 (lit "Write name, please") show_birthday_func.

(** The line of one upcoming birthday. *)
Definition entry_line (b : entry) : pystr :=
  entry_name b ++ lit " - " ++ entry_birthday b.

Definition newline : pystr := [10%N].

(** [birthdays], called on the day [today]. *)
Definition birthdays_func (today : date) (args : list pystr) : M pystr :=
  book <- get_book ;;
  upcoming <- lift (get_upcoming_birthdays today book) ;;
  match upcoming with
  | [] => ret (lit "No upcoming birthdays.")
  | _ => ret (join newline (map entry_line upcoming))
  end.

Definition birthdays (today : date) : list pystr -> M pystr :=
  input_error 0 default_error_message (birthdays_func today).

(** The commands of the dispatch in [main] that run a handler, with the
    minimum number of arguments and the message their decorator declares. *)
Inductive command : Type :=
| CmdAdd | CmdChange | CmdPhone | CmdAll
| CmdAddBirthday | CmdShowBirthday | CmdBirthdays.

Definition handler (today : date) (c : command) : list pystr -> M pystr :=
  match c with
  | CmdAdd => add_contact
  | CmdChange => change_contact
  | CmdPhone => show_phone
  | CmdAll => show_all
  | CmdAddBirthday => add_birthday
  | CmdShowBirthday => show_birthday
  | CmdBirthdays => birthdays today
  end.

Definition required_args (c : command) : nat :=
  match c with
  | CmdAdd => 2
  | CmdChange => 3
  | CmdPhone => 1
  | CmdAll => 0
  | CmdAddBirthday => 2
  | CmdShowBirthday => 1
  | CmdBirthdays => 0
  end.

Definition error_message (c : command) : pystr :=
  match c with
  | CmdAdd => lit "Write name and phone, please"
  | CmdChange => lit "Write name, old phone, and new phone, please"
  | CmdPhone => lit "Write name, please"
  | CmdAll => default_error_message
  | CmdAddBirthday => lit "Write name and birthday, please"
  | CmdShowBirthday => lit "Write name, please"
  | CmdBirthdays => default_error_message
  end.

End Handlers.


(* ================================================================= *)
(** * Notions the properties are stated with *)

(** ** Texts of dates *)

(** The texts the group of [%d] can hold. *)
Definition is_day_text (t : pystr) : bool :=
  match t with
  | [a] => in_range 49 57 a
  | [a; b] =>
      (N.eqb a 51 && in_range 48 49 b)
      || (in_range 49 50 a && isdecimal_cp b)
      || (N.eqb a 48 && in_range 49 57 b)
      || (N.eqb a 32 && in_range 49 57 b)
  | _ => false
  end.

(** The texts the group of [%m] can hold. *)
Definition is_month_text (t : pystr) : bool :=
  match t with
  | [a] => in_range 49 57 a
  | [a; b] =>
      (N.eqb a 49 && in_range 48 50 b) || (N.eqb a 48 && in_range 49 57 b)
  | _ => false
  end.

(** The texts the group of [%Y] can hold. *)
Definition is_year_text (t : pystr) : bool :=
  match t with
  | [a; b; c; d] =>
      isdecimal_cp a && isdecimal_cp b && isdecimal_cp c && isdecimal_cp d
  | _ => false
  end.

(** The text [s] is a day, a month and a year that read as the fields
    of [dt], with a full stop between them and nothing else. *)
Definition denotes (s : pystr) (dt : date) : Prop :=
  exists d m y,
    s = d ++ 46%N :: m ++ 46%N :: y
    /\ is_day_text d = true /\ is_month_text m = true
    /\ is_year_text y = true
    /\ int_value d = Some (day dt) /\ int_value m = Some (month dt)
    /\ int_value y = Some (year dt).

(** The digit an ASCII digit stands for. *)
Definition ascii_digit_value (c : N) : Z := Z.of_N c - 48.

(** The date that a text of the strict form DD.MM.YYYY spells: two ASCII
    digits, a full stop, two ASCII digits, a full stop, four ASCII
    digits; [None] for any other text. *)
Definition strict_fields (s : pystr) : option date :=
  match s with
  | [d1; d2; p; m1; m2; q; y1; y2; y3; y4] =>
      if forallb is_ascii_digit [d1; d2; m1; m2; y1; y2; y3; y4]
         && N.eqb p 46 && N.eqb q 46
      then Some (mkdate
                   (1000 * ascii_digit_value y1 + 100 * ascii_digit_value y2
                    + 10 * ascii_digit_value y3 + ascii_digit_value y4)
                   (10 * ascii_digit_value m1 + ascii_digit_value m2)
                   (10 * ascii_digit_value d1 + ascii_digit_value d2))
      else None
  | _ => None
  end.

(** ** The calendar *)

(** What [ord2md] has to satisfy on the day number [n] of a year. *)
Definition md_ok (leap : bool) (n : Z) : bool :=
  let md := ord2md n leap in
  let dim := if (fst md =? 2) && leap then 29 else DAYS_IN_MONTH (fst md) in
  (1 <=? fst md) && (fst md <=? 12) && (1 <=? snd md) && (snd md <=? dim)
  && (DAYS_BEFORE_MONTH (fst md) + (if (2 <? fst md) && leap then 1 else 0)
      + snd md =? n + 1).

(** The birthday [p] in the year of [today]. *)
Definition this_year (today p : date) : date :=
  mkdate (year today) (month p) (day p).

(** Its next occurrence: in the year of [today], or in the next year when
    that day is strictly before [today]. *)
Definition occurrence (today p : date) : date :=
  if Datetime.ltb (this_year today p) today
  then mkdate (year today + 1) (month p) (day p)
  else this_year today p.

(** The occurrence is today or within the seven days that follow. *)
Definition in_window (today occ : date) : bool :=
  (0 <=? sub_days occ today) && (sub_days occ today <=? 7).

(** The day of the congratulation: the occurrence, moved past a Saturday
    or a Sunday. *)
Definition congratulation (occ : date) : date :=
  if 5 <=? weekday occ
  then ord2ymd (toordinal occ + (7 - weekday occ))
  else occ.

(** A birthday on 29 February. *)
Definition leap_day (p : date) : Prop := month p = 2 /\ day p = 29.

(** ** Sequences of commands *)

Section Notions.

Context {U : UnicodeOps}.

(** The phones of the record [find] returns, none when it returns none. *)
Definition phones_of (o : option record) : list pystr :=
  match o with
  | Some r => phones r
  | None => []
  end.

(** The statement of C6 for one book, one name and two phones: the second
    [add] answers "Contact updated." and the record of the name then holds
    both phones. *)
Definition add_twice_updates (book : AddressBook) (nm p1 p2 : pystr) : Prop :=
  let book1 := snd (add_contact [nm; p1] book) in
  let out := add_contact [nm; p2] book1 in
  fst out = Ok (lit "Contact updated.")
  /\ exists r, find (snd out) nm = Some r
               /\ In p1 (phones r) /\ In p2 (phones r).

(** The book after [add nm p] for each phone of a list, in order. *)
Definition add_all (nm : pystr) (ps : list pystr) (book : AddressBook)
  : AddressBook :=
  fold_left (fun b p => snd (add_contact [nm; p] b)) ps book.

(** The statement of C7 for one book, one name and the phones added. *)
Definition phone_roundtrip (book : AddressBook) (nm : pystr)
           (ps : list pystr) : Prop :=
  fst (show_phone [nm] (add_all nm ps book)) = Ok (join (lit ", ") ps).

(** The function each decorator wraps. *)
Definition func (today : date) (c : command) : list pystr -> M pystr :=
  match c with
  | CmdAdd => add_contact_func
  | CmdChange => change_contact_func
  | CmdPhone => show_phone_func
  | CmdAll => show_all_func
  | CmdAddBirthday => add_birthday_func
  | CmdShowBirthday => show_birthday_func
  | CmdBirthdays => birthdays_func today
  end.

(** The books the handlers build from the empty one. *)
Inductive reachable : AddressBook -> Prop :=
| reachable_empty : reachable []
| reachable_step (today : date) (c : command) (args : list pystr)
                 (book : AddressBook) :
    reachable book -> reachable (snd (handler today c args book)).

(** The entries a list of records is due, when no step raises. *)
Definition entries_of (today : date) (rs : list record) : list entry :=
  flat_map (fun r => match upcoming_of today r with
                     | Ok (Some e) => [e]
                     | _ => []
                     end) rs.

(** A record without a birthday, or with one that is not a 29 February. *)
Definition regular (r : record) : Prop :=
  match birthday r with
  | None => True
  | Some b => exists p, strptime b = Ok p /\ ~ leap_day p
  end.

End Notions.

(** ** Sample data *)

(** The string of ten superscript twos (U+00B2). *)
Definition superscript_twos : pystr := repeat 178%N 10.

Definition phone_a : pystr := lit "1234567890".
Definition phone_b : pystr := lit "0987654321".

(** A book with the one contact "bob" and one phone. *)
Definition book_bob : AddressBook :=
  [(lit "bob", mkRecord (lit "bob") [phone_a] None)].

(** The book after [add bob 1234567890] and
    [add-birthday bob 29.02.2020]. *)
Definition book_leap : AddressBook :=
  [(lit "bob", mkRecord (lit "bob") [phone_a] (Some (lit "29.02.2020")))].

(** The book after [add ann 1234567890], [add-birthday ann 29.02.2020],
    [add bob 0987654321] and [add-birthday bob 12.06.1990]. *)
Definition book_ann_bob : AddressBook :=
  [(lit "ann", mkRecord (lit "ann") [phone_a] (Some (lit "29.02.2020")));
   (lit "bob", mkRecord (lit "bob") [phone_b] (Some (lit "12.06.1990")))].

(* ================================================================= *)
(** * The command line: [parse_input] and the loop of [main] *)

(** The characters [str.isspace] holds of, which are those [str.strip]
    and [str.split] take for blanks (Unicode 14.0.0). *)
Definition whitespace_ranges : list (N * N) :=
  [ (9, 13); (28, 32); (133, 133); (160, 160); (5760, 5760);
    (8192, 8202); (8232, 8233); (8239, 8239); (8287, 8287);
    (12288, 12288) ]%N.

Definition isspace_cp (c : N) : bool := in_ranges whitespace_ranges c.

(** [s.lstrip()] *)
Fixpoint lstrip (s : pystr) : pystr :=
  match s with
  | c :: s' => if isspace_cp c then lstrip s' else s
  | [] => []
  end.

(** [s.strip()] *)
Definition strip (s : pystr) : pystr := rev (lstrip (rev (lstrip s))).

(** [s.split(" ", 1)]: the text before the first space and, when there
    is a space, the text after it. *)
Fixpoint split_first_space (s : pystr) : pystr * option pystr :=
  match s with
  | [] => ([], None)
  | c :: s' =>
      if N.eqb c 32 then ([], Some s')
      else let '(a, b) := split_first_space s' in (c :: a, b)
  end.

(** [s.split()]: the maximal runs of characters that are not blanks;
    [tok] holds the run being read, last character first. *)
Fixpoint split_loop (tok : pystr) (s : pystr) : list pystr :=
  match s with
  | [] => match tok with
          | [] => []
          | _ => [rev tok]
          end
  | c :: s' =>
      if isspace_cp c then
        match tok with
        | [] => split_loop [] s'
        | _ => rev tok :: split_loop [] s'
        end
      else split_loop (c :: tok) s'
  end.

Definition split (s : pystr) : list pystr := split_loop [] s.

(** A piece of text a handler can take for an argument: not empty, and
    free of blanks. *)
Definition token (a : pystr) : Prop :=
  a <> [] /\ forallb (fun c => negb (isspace_cp c)) a = true.



Section Main.

Context {U : UnicodeOps}.

Definition parse_input (user_input : pystr) : pystr * list pystr :=
  let parts := split_first_space (strip user_input) in
  let command := lower (fst parts) in
  let args := match snd parts with
              | Some rest => split (lower rest)
              | None => []
              end in
  (command, args).





(** ** Books in good order *)

(** A record stored under its own name, which is not empty, with phones
    and a birthday that pass their validation. *)
Definition wf_record (k : pystr) (r : record) : Prop :=
  k = name r /\ name r <> []
  /\ Forall (fun p => Phone p = Ok p) (phones r)
  /\ match birthday r with
     | Some b => Birthday b = Ok b
     | None => True
     end.

(** A book whose keys are all different and whose records are in good
    order. *)
Definition wf_book (book : AddressBook) : Prop :=
  NoDup (map fst book)
  /\ Forall (fun kr => wf_record (fst kr) (snd kr)) book.

(** The exceptions the decorator [input_error] turns into a message. *)
Definition caught (e : exn) : Prop :=
  match e with
  | OverflowError _ => False
  | _ => True
  end.

End Main.

(** The book after [add al 1234567890] and
    [add-birthday al 15.06.1985]. *)
Definition book_al : AddressBook :=
  [(lit "al", mkRecord (lit "al") [phone_a] (Some (lit "15.06.1985")))].

(* ================================================================= *)
(** * Strings and dictionaries *)

Lemma pystr_eqb_eq (s t : pystr) : PyStr.eqb s t = true <-> s = t.
Proof.
  revert t; induction s as [|a s IH]; intros [|b t]; simpl;
    try (split; (reflexivity || discriminate)).
  rewrite andb_true_iff, N.eqb_eq, IH.
  split; [intros [-> ->]; reflexivity | intros H; inversion H; auto].
Qed.

Lemma pystr_eqb_refl (s : pystr) : PyStr.eqb s s = true.
Proof. apply pystr_eqb_eq; reflexivity. Qed.

Lemma pystr_eqb_neq (s t : pystr) : PyStr.eqb s t = false <-> s <> t.
Proof.
  rewrite <- pystr_eqb_eq. destruct (PyStr.eqb s t); split; congruence.
Qed.

Section DictFacts.

Context {V : Type}.

Lemma dict_get_set_same (d : dict V) (k : pystr) (v : V) :
  dict_get (dict_set d k v) k = Some v.
Proof.
  induction d as [|[k' v'] d IH]; simpl.
  - now rewrite pystr_eqb_refl.
  - destruct (PyStr.eqb k' k) eqn:E; simpl; rewrite E; auto.
Qed.

Lemma dict_get_set_other (d : dict V) (k k' : pystr) (v : V) :
  k <> k' -> dict_get (dict_set d k v) k' = dict_get d k'.
Proof.
  intros Hne. induction d as [|[k0 v0] d IH]; simpl.
  - apply pystr_eqb_neq in Hne. now rewrite Hne.
  - destruct (PyStr.eqb k0 k) eqn:E; simpl.
    + apply pystr_eqb_eq in E. subst k0.
      apply pystr_eqb_neq in Hne. now rewrite Hne.
    + now rewrite IH.
Qed.

Lemma dict_set_set (d : dict V) (k : pystr) (v v' : V) :
  dict_set (dict_set d k v) k v' = dict_set d k v'.
Proof.
  induction d as [|[k0 v0] d IH]; simpl.
  - rewrite pystr_eqb_refl.
    reflexivity.
  - destruct (PyStr.eqb k0 k) eqn:E; simpl; rewrite E; [reflexivity|].
    now rewrite IH.
Qed.

End DictFacts.

(** Boolean tests of the model, read as propositions. *)
Ltac bprop :=
  repeat match goal with
  | H : _ && _ = true |- _ => apply andb_true_iff in H; destruct H
  | H : _ || _ = true |- _ => apply orb_true_iff in H; destruct H
  | H : _ && _ = false |- _ => apply andb_false_iff in H; destruct H
  | H : _ || _ = false |- _ => apply orb_false_iff in H; destruct H
  | H : N.eqb _ _ = true |- _ => apply N.eqb_eq in H
  | H : N.eqb _ _ = false |- _ => apply N.eqb_neq in H
  | H : N.leb _ _ = true |- _ => apply N.leb_le in H
  | H : N.leb _ _ = false |- _ => apply N.leb_gt in H
  end.

(* ================================================================= *)
(** * Phone validation *)

Lemma Phone_Ok_iff (s : pystr) :
  Phone s = Ok s <->
  List.length s = 10%nat /\ Forall (fun c => isdigit_cp c = true) s.
Proof.
  unfold Phone.
  destruct (isdigit s && Nat.eqb (List.length s) 10) eqn:E; simpl.
  - apply andb_true_iff in E as [Hd Hl]. apply Nat.eqb_eq in Hl.
    split; [intros _ | reflexivity]. split; [assumption|].
    apply Forall_forall. destruct s; [discriminate|].
    unfold isdigit in Hd. now apply forallb_forall.
  - split; [discriminate|]. intros [Hl Hd]. exfalso.
    apply andb_false_iff in E as [E|E].
    + destruct s; [discriminate|]. unfold isdigit in E.
      rewrite Forall_forall in Hd.
      apply (proj2 (forallb_forall _ _)) in Hd. congruence.
    + apply Nat.eqb_neq in E. contradiction.
Qed.

Lemma Phone_cases (s : pystr) :
  Phone s = Ok s \/
  Phone s = Raise (ValueError (lit "Phone number must be 10 digits")).
Proof.
  unfold Phone. destruct (negb _); auto.
Qed.

Lemma ascii_digit_isdigit (c : N) :
  is_ascii_digit c = true -> isdigit_cp c = true.
Proof.
  unfold is_ascii_digit, isdigit_cp, in_ranges. intros H.
  simpl. rewrite H. reflexivity.
Qed.

(** C1, as stated, fails: the ten superscript twos pass the validation of
    [Phone], and not one of them is a decimal digit, be it one of the ten
    characters [0] to [9] or any character of category Nd. *)
Lemma C1_superscripts_accepted :
  Phone superscript_twos = Ok superscript_twos
  /\ List.length superscript_twos = 10%nat
  /\ forallb is_ascii_digit superscript_twos = false
  /\ existsb isdecimal_cp superscript_twos = false.
Proof. repeat split. Qed.

(** C1, amended: [Phone] accepts a string exactly when it has ten
    characters and each of them is a digit in the sense of [str.isdigit]
    (Numeric_Type Digit or Decimal), which holds of the ten characters
    [0] to [9] and of others too; every other string is refused with the
    message "Phone number must be 10 digits". *)
Theorem C1_phone_validation (s : pystr) :
  (Phone s = Ok s <->
   List.length s = 10%nat /\ Forall (fun c => isdigit_cp c = true) s)
  /\ (Phone s <> Ok s <->
      Phone s = Raise (ValueError (lit "Phone number must be 10 digits")))
  /\ (forall c, is_ascii_digit c = true -> isdigit_cp c = true).
Proof.
  split; [apply Phone_Ok_iff|]. split.
  - destruct (Phone_cases s) as [H|H]; rewrite H; split; congruence.
  - intros c. apply ascii_digit_isdigit.
Qed.

(* ================================================================= *)
(** * Birthday validation *)

Section BirthdayValidation.

Context {U : UnicodeOps}.

(** The full stop is no decimal character, so that a group never runs
    over the full stop that follows it. *)
Lemma isdecimal_cp_dot : isdecimal_cp 46 = false.
Proof. reflexivity. Qed.

#[local] Arguments isdecimal_cp : simpl never.

Lemma re_dot_spec {A} (s : pystr) (k : pystr -> option A) (x : A) :
  re_dot s k = Some x <-> exists r, s = 46%N :: r /\ k r = Some x.
Proof.
  unfold re_dot. destruct s as [|a r].
  - split; [discriminate | intros (r & H & _); discriminate].
  - destruct (N.eqb a 46) eqn:E.
    + apply N.eqb_eq in E. subst a. split; eauto.
      intros (r' & H & Hk). inversion H. now subst.
    + apply N.eqb_neq in E. split; [discriminate|].
      intros (r' & H & _). inversion H. contradiction.
Qed.

(** Case analysis on the guards of the alternatives of a matcher and on
    the outcome of the rest of the pattern. *)
Ltac split_matcher H :=
  repeat match type of H with
  | context [if ?c then _ else _] =>
      let E := fresh "E" in destruct c eqn:E
  | context [match re_dot ?s ?k with _ => _ end] =>
      let E := fresh "Ed" in destruct (re_dot s k) eqn:E
  end.

Ltac use_guards :=
  simpl;
  repeat match goal with
  | E : ?g = _ |- context [?g] => rewrite E
  end;
  simpl; rewrite ?orb_true_r; try reflexivity.

Ltac contra :=
  exfalso; unfold in_range in *; bprop;
  try match goal with
  | H : isdecimal_cp 46 = true |- _ =>
      rewrite isdecimal_cp_dot in H; discriminate H
  end;
  lia.

Ltac leaf :=
  try match goal with
  | H : Some _ = Some _ |- _ => inversion H; subst; clear H
  end;
  match goal with
  | Ed : re_dot (?b :: ?s) (?k [?a]) = Some _ |- _ =>
      let r := fresh "r" in
      let Hr := fresh "Hr" in
      let Hk := fresh "Hk" in
      apply re_dot_spec in Ed as (r & Hr & Hk); inversion Hr; subst;
      eexists [a], _
  | Ed : re_dot ?s (?k [?a; ?b]) = Some _ |- _ =>
      let r := fresh "r" in
      let Hr := fresh "Hr" in
      let Hk := fresh "Hk" in
      apply re_dot_spec in Ed as (r & Hr & Hk); subst;
      eexists [a; b], _
  end;
  (split; [reflexivity|]); split; [first [use_guards | contra] | assumption].

(** [%d] followed by the full stop: the alternatives, tried in order with
    backtracking, accept exactly the day texts, and the split is the only
    one there is. *)
Lemma re_d_dot {A} (s : pystr) (k : pystr -> pystr -> option A) (x : A) :
  re_d s (fun d r => re_dot r (k d)) = Some x <->
  exists d r, s = d ++ 46%N :: r /\ is_day_text d = true /\ k d r = Some x.
Proof.
  split.
  - unfold re_d, orelse. intros H.
    destruct s as [|a [|b s]].
    + discriminate.
    + split_matcher H; discriminate.
    + split_matcher H; try discriminate; leaf.
  - intros (d & r & -> & Hd & Hk). unfold re_d, orelse.
    destruct d as [|a [|b [|c d]]]; try discriminate; simpl in *;
      repeat match goal with
      | |- context [if ?c then _ else _] => destruct c eqn:?
      end;
      rewrite ?Hk; try reflexivity; contra.
Qed.

(** The same for [%m]. *)
Lemma re_m_dot {A} (s : pystr) (k : pystr -> pystr -> option A) (x : A) :
  re_m s (fun m r => re_dot r (k m)) = Some x <->
  exists m r, s = m ++ 46%N :: r /\ is_month_text m = true /\ k m r = Some x.
Proof.
  split.
  - unfold re_m, orelse. intros H.
    destruct s as [|a [|b s]].
    + discriminate.
    + split_matcher H; discriminate.
    + split_matcher H; try discriminate; leaf.
  - intros (m & r & -> & Hm & Hk). unfold re_m, orelse.
    destruct m as [|a [|b [|c m]]]; try discriminate; simpl in *;
      repeat match goal with
      | |- context [if ?c then _ else _] => destruct c eqn:?
      end;
      rewrite ?Hk; try reflexivity; contra.
Qed.

Lemma re_Y_spec {A} (s : pystr) (k : pystr -> pystr -> option A) (x : A) :
  re_Y s k = Some x <->
  exists y r, s = y ++ r /\ is_year_text y = true /\ k y r = Some x.
Proof.
  split.
  - unfold re_Y. intros H.
    destruct s as [|a [|b [|c [|d r]]]]; try discriminate.
    destruct (isdecimal_cp a && isdecimal_cp b && isdecimal_cp c
              && isdecimal_cp d) eqn:E; [|discriminate].
    exists [a; b; c; d], r. auto.
  - intros (y & r & -> & Hy & Hk).
    destruct y as [|a [|b [|c [|d [|e y]]]]]; try discriminate.
    simpl in *. now rewrite Hy.
Qed.

(** What the whole pattern matches: a day text, a month text and a year
    text with full stops between them; [rest] is what the match leaves. *)
Lemma format_regex_match_spec (s d m y rest : pystr) :
  format_regex_match s = Some (d, m, y, rest) <->
  s = d ++ 46%N :: m ++ 46%N :: y ++ rest
  /\ is_day_text d = true /\ is_month_text m = true
  /\ is_year_text y = true.
Proof.
  unfold format_regex_match. rewrite re_d_dot. split.
  - intros (d' & r1 & -> & Hd & H).
    apply re_m_dot in H as (m' & r2 & -> & Hm & H).
    apply re_Y_spec in H as (y' & r3 & -> & Hy & H).
    inversion H; subst. auto.
  - intros (-> & Hd & Hm & Hy).
    exists d, (m ++ 46%N :: y ++ rest). split; [reflexivity|].
    split; [assumption|].
    apply re_m_dot. exists m, (y ++ rest). split; [reflexivity|].
    split; [assumption|].
    apply re_Y_spec. exists y, rest. auto.
Qed.

Lemma date_new_Ok_iff (y m d : Z) (dt : date) :
  date_new y m d = Ok dt <-> dt = mkdate y m d /\ valid dt.
Proof.
  unfold date_new, valid.
  destruct ((MINYEAR <=? y) && (y <=? MAXYEAR)) eqn:Ey; simpl.
  - destruct ((1 <=? m) && (m <=? 12)) eqn:Em; simpl.
    + destruct ((1 <=? d) && (d <=? days_in_month y m)) eqn:Ed; simpl.
      * apply andb_true_iff in Ey as [? ?], Em as [? ?], Ed as [? ?].
        split.
        -- intros Hq. inversion Hq; subst. simpl. split; [reflexivity|]. lia.
        -- intros [-> _]. reflexivity.
      * split; [discriminate|]. intros [-> Hq]. simpl in Hq.
        apply andb_false_iff in Ed as [Ed|Ed]; apply Z.leb_gt in Ed; lia.
    + split; [discriminate|]. intros [-> Hq]. simpl in Hq.
      apply andb_false_iff in Em as [Em|Em]; apply Z.leb_gt in Em; lia.
  - split; [discriminate|]. intros [-> Hq]. simpl in Hq.
    apply andb_false_iff in Ey as [Ey|Ey]; apply Z.leb_gt in Ey; lia.
Qed.

Lemma date_new_raises (y m d : Z) (e : exn) :
  date_new y m d = Raise e -> exists msg, e = ValueError msg.
Proof.
  unfold date_new.
  repeat match goal with
  | |- context [if ?c then _ else _] => destruct c
  end; intros H; inversion H; eauto.
Qed.

Lemma int_Ok_iff (s : pystr) (n : Z) : int s = Ok n <-> int_value s = Some n.
Proof.
  unfold int. destruct (int_value s); split; congruence.
Qed.

Lemma int_raises (s : pystr) (e : exn) :
  int s = Raise e -> exists msg, e = ValueError msg.
Proof.
  unfold int. destruct (int_value s); intros H; inversion H; eauto.
Qed.

(** [strptime] returns a date exactly on the texts that denote it, when
    it is a date of the calendar. *)
Theorem strptime_Ok_iff (s : pystr) (dt : date) :
  strptime s = Ok dt <-> denotes s dt /\ valid dt.
Proof.
  unfold strptime, denotes. split.
  - destruct (format_regex_match s) as [[[[d m] y] rest]|] eqn:E;
      [|discriminate].
    apply format_regex_match_spec in E as (-> & Hd & Hm & Hy).
    destruct rest; [|discriminate]. rewrite app_nil_r.
    destruct (int d) as [d'|] eqn:Ed; [|discriminate].
    destruct (int m) as [m'|] eqn:Em; [|discriminate].
    destruct (int y) as [y'|] eqn:Ey; [|discriminate].
    simpl. intros H. apply date_new_Ok_iff in H as [-> Hv].
    apply int_Ok_iff in Ed, Em, Ey.
    split; [|assumption]. exists d, m, y. simpl. auto 10.
  - intros [(d & m & y & -> & Hd & Hm & Hy & Vd & Vm & Vy) Hv].
    assert (E : format_regex_match (d ++ 46%N :: m ++ 46%N :: y)
                = Some (d, m, y, [])).
    { apply format_regex_match_spec. rewrite app_nil_r. auto. }
    rewrite E.
    apply int_Ok_iff in Vd, Vm, Vy. rewrite Vd, Vm, Vy. simpl.
    apply date_new_Ok_iff. destruct dt; auto.
Qed.

(** [strptime] raises nothing but [ValueError]. *)
Lemma strptime_raises (s : pystr) (e : exn) :
  strptime s = Raise e -> exists msg, e = ValueError msg.
Proof.
  unfold strptime.
  destruct (format_regex_match s) as [[[[d m] y] rest]|];
    [|intros H; inversion H; eauto].
  destruct rest; [|intros H; inversion H; eauto].
  destruct (int d) eqn:Ed; simpl;
    [|intros H; inversion H; subst; eapply int_raises; eauto].
  destruct (int m) eqn:Em; simpl;
    [|intros H; inversion H; subst; eapply int_raises; eauto].
  destruct (int y) eqn:Ey; simpl;
    [|intros H; inversion H; subst; eapply int_raises; eauto].
  apply date_new_raises.
Qed.

Lemma Birthday_cases (s : pystr) :
  (exists dt, strptime s = Ok dt /\ Birthday s = Ok s)
  \/ ((forall dt, strptime s <> Ok dt)
      /\ Birthday s =
         Raise (ValueError (lit "Invalid date format. Use DD.MM.YYYY"))).
Proof.
  unfold Birthday. destruct (strptime s) as [dt|e] eqn:E.
  - left. eauto.
  - right. apply strptime_raises in E as [msg ->].
    split; [discriminate | reflexivity].
Qed.


Lemma Birthday_Ok_iff (s : pystr) :
  Birthday s = Ok s <-> exists dt, denotes s dt /\ valid dt.
Proof.
  destruct (Birthday_cases s) as [(dt & Hs & Hb)|[Hs Hb]]; rewrite Hb.
  - split; [intros _ | reflexivity]. exists dt. now apply strptime_Ok_iff.
  - split; [discriminate|]. intros (dt & H). apply strptime_Ok_iff in H.
    now apply Hs in H.
Qed.

Lemma decimal_value_ascii (c : N) :
  is_ascii_digit c = true -> decimal_value c = Some (ascii_digit_value c).
Proof.
  unfold is_ascii_digit, decimal_value, decimal_ranges, ascii_digit_value.
  intros H. cbn [List.find fst snd]. rewrite H.
  apply andb_true_iff in H as [H1 H2].
  apply N.leb_le in H1, H2. cbn [fst]. f_equal.
  rewrite N.mod_small by lia. lia.
Qed.

Lemma ascii_digit_isdecimal (c : N) :
  is_ascii_digit c = true -> isdecimal_cp c = true.
Proof.
  unfold is_ascii_digit, isdecimal_cp, in_ranges, decimal_ranges.
  intros H. cbn [existsb fst snd]. now rewrite H.
Qed.

Lemma days_in_month_le (y m : Z) : days_in_month y m <= 31.
Proof.
  unfold days_in_month, DAYS_IN_MONTH.
  destruct ((m =? 2) && is_leap y); [lia|].
  destruct m as [|p|p]; cbn; try lia.
  do 4 (destruct p as [p|p|]; cbn; try lia).
Qed.

Ltac decide_atoms :=
  repeat match goal with
  | |- context [N.eqb ?a ?b] => destruct (N.eqb a b) eqn:?
  | |- context [N.leb ?a ?b] => destruct (N.leb a b) eqn:?
  end; simpl; try reflexivity.

Local Opaque Z.mul.

(** A text of the strict form denotes the date it spells. *)
Lemma strict_denotes (s : pystr) (dt : date) :
  strict_fields s = Some dt -> valid dt -> denotes s dt.
Proof.
  unfold strict_fields.
  destruct s as [|d1 [|d2 [|p [|m1 [|m2 [|q [|y1 [|y2 [|y3 [|y4 [|z s]]]]]]]]]]];
    try discriminate.
  destruct (forallb is_ascii_digit [d1; d2; m1; m2; y1; y2; y3; y4]
            && N.eqb p 46 && N.eqb q 46) eqn:E; [|discriminate].
  intros Hs Hv. injection Hs as <-.
  apply andb_true_iff in E as [E Eq]. apply andb_true_iff in E as [E Ep].
  apply N.eqb_eq in Ep, Eq. subst p q.
  cbn [forallb] in E.
  repeat (apply andb_true_iff in E as [?H E]).
  destruct Hv as (Hy & Hm & Hd). cbn [year month day] in Hy, Hm, Hd.
  pose proof (days_in_month_le
                (1000 * ascii_digit_value y1 + 100 * ascii_digit_value y2
                 + 10 * ascii_digit_value y3 + ascii_digit_value y4)
                (10 * ascii_digit_value m1 + ascii_digit_value m2)) as Hle.
  exists [d1; d2], [m1; m2], [y1; y2; y3; y4].
  split; [reflexivity|].
  assert (Hb : forall c, is_ascii_digit c = true ->
                         (48 <= c <= 57)%N).
  { intros c Hc. unfold is_ascii_digit in Hc.
    apply andb_true_iff in Hc as [Hc1 Hc2].
    apply N.leb_le in Hc1, Hc2. lia. }
  pose proof (Hb _ H) as B1. pose proof (Hb _ H0) as B2.
  pose proof (Hb _ H1) as B3. pose proof (Hb _ H2) as B4.
  unfold ascii_digit_value in Hm, Hd, Hle.
  repeat split.
  - cbn [is_day_text]. rewrite (ascii_digit_isdecimal _ H0).
    unfold in_range. decide_atoms; bprop; lia.
  - cbn [is_month_text]. unfold in_range. decide_atoms; bprop; lia.
  - cbn [is_year_text]. now rewrite !ascii_digit_isdecimal.
  - unfold int_value, lstrip_space.
    destruct (N.eqb d1 32) eqn:E32; [apply N.eqb_eq in E32; lia|].
    cbn [int_digits]. rewrite !decimal_value_ascii by assumption.
    cbn [year month day]. apply f_equal. unfold ascii_digit_value. lia.
  - unfold int_value, lstrip_space.
    destruct (N.eqb m1 32) eqn:E32; [apply N.eqb_eq in E32; lia|].
    cbn [int_digits]. rewrite !decimal_value_ascii by assumption.
    cbn [year month day]. apply f_equal. unfold ascii_digit_value. lia.
  - unfold int_value, lstrip_space.
    pose proof (Hb _ H3) as B5.
    destruct (N.eqb y1 32) eqn:E32; [apply N.eqb_eq in E32; lia|].
    cbn [int_digits]. rewrite !decimal_value_ascii by assumption.
    cbn [year month day]. apply f_equal. unfold ascii_digit_value. lia.
Qed.

Local Transparent Z.mul.

Lemma decimal_value_range (c : N) :
  isdecimal_cp c = true ->
  exists v, decimal_value c = Some v /\ 0 <= v <= 9.
Proof.
  unfold isdecimal_cp, in_ranges, decimal_value.
  generalize decimal_ranges as tbl.
  induction tbl as [|r tbl IH]; cbn [existsb List.find]; [discriminate|].
  destruct (N.leb (fst r) c && N.leb c (snd r)).
  - intros _. eexists. split; [reflexivity|].
    assert (((c - fst r) mod 10 < 10)%N)
      by (apply N.mod_upper_bound; discriminate).
    generalize dependent ((c - fst r) mod 10)%N. intros; lia.
  - intros H. now apply IH.
Qed.

Lemma in_range_ascii_digit (lo hi c : N) :
  (48 <= lo)%N -> (hi <= 57)%N -> in_range lo hi c = true ->
  is_ascii_digit c = true.
Proof.
  unfold in_range, is_ascii_digit. intros Hlo Hhi H.
  apply andb_true_iff in H as [H1 H2]. apply N.leb_le in H1, H2.
  apply andb_true_iff. split; apply N.leb_le; lia.
Qed.

Lemma in_range_value (lo hi c : N) :
  (48 <= lo)%N -> (hi <= 57)%N -> in_range lo hi c = true ->
  decimal_value c = Some (ascii_digit_value c)
  /\ Z.of_N lo - 48 <= ascii_digit_value c <= Z.of_N hi - 48.
Proof.
  intros Hlo Hhi H. split.
  - apply decimal_value_ascii. eapply in_range_ascii_digit; eauto.
  - unfold in_range in H. apply andb_true_iff in H as [H1 H2].
    apply N.leb_le in H1, H2. unfold ascii_digit_value. lia.
Qed.

Ltac range_facts :=
  repeat match goal with
  | H : in_range ?lo ?hi ?c = true |- _ =>
      let V := fresh "V" in
      let B := fresh "B" in
      destruct (in_range_value lo hi c ltac:(lia) ltac:(lia) H) as [V B];
      clear H
  | H : isdecimal_cp ?c = true |- _ =>
      let v := fresh "v" in
      let V := fresh "V" in
      let B := fresh "B" in
      destruct (decimal_value_range c H) as (v & V & B); clear H
  | H : N.eqb ?a ?n = true |- _ => apply N.eqb_eq in H; subst a
  end.

(** What the groups of a match read as: a day from 1 to 31, a month from
    1 to 12, a year from 0 to 9999. *)
Lemma day_text_value (d : pystr) :
  is_day_text d = true -> exists n, int_value d = Some n /\ 1 <= n <= 31.
Proof.
  destruct d as [|a [|b [|c d]]]; try discriminate; cbn [is_day_text];
    intros H; bprop; subst; range_facts;
    unfold int_value; cbn [lstrip_space N.eqb Pos.eqb int_digits];
    try match goal with
    | |- context [N.eqb ?a 32] =>
        let E := fresh "E" in
        destruct (N.eqb a 32) eqn:E;
        [apply N.eqb_eq in E; subst a; unfold ascii_digit_value in *; lia|]
    end;
    cbn [int_digits];
    repeat match goal with
    | V : decimal_value _ = Some _ |- _ => rewrite V; clear V
    end;
    try (rewrite (decimal_value_ascii 51 eq_refl));
    try (rewrite (decimal_value_ascii 48 eq_refl));
    eexists; (split; [reflexivity|]); unfold ascii_digit_value in *; lia.
Qed.

Lemma month_text_value (m : pystr) :
  is_month_text m = true -> exists n, int_value m = Some n /\ 1 <= n <= 12.
Proof.
  destruct m as [|a [|b [|c m]]]; try discriminate; cbn [is_month_text];
    intros H; bprop; subst; range_facts;
    unfold int_value; cbn [lstrip_space N.eqb Pos.eqb int_digits];
    try match goal with
    | |- context [N.eqb ?a 32] =>
        let E := fresh "E" in
        destruct (N.eqb a 32) eqn:E;
        [apply N.eqb_eq in E; subst a; unfold ascii_digit_value in *; lia|]
    end;
    cbn [int_digits];
    repeat match goal with
    | V : decimal_value _ = Some _ |- _ => rewrite V; clear V
    end;
    try (rewrite (decimal_value_ascii 49 eq_refl));
    try (rewrite (decimal_value_ascii 48 eq_refl));
    eexists; (split; [reflexivity|]); unfold ascii_digit_value in *; lia.
Qed.

Lemma year_text_value (y : pystr) :
  is_year_text y = true -> exists n, int_value y = Some n /\ 0 <= n <= 9999.
Proof.
  destruct y as [|a [|b [|c [|d [|e y]]]]]; try discriminate;
    cbn [is_year_text]; intros H; bprop.
  assert (Ha : a <> 32%N) by (intros ->; discriminate).
  range_facts. unfold int_value, lstrip_space.
  apply N.eqb_neq in Ha. rewrite Ha. cbn [int_digits].
  repeat match goal with
  | V : decimal_value _ = Some _ |- _ => rewrite V; clear V
  end.
  eexists. split; [reflexivity|]. lia.
Qed.

(** C2, amended: [Birthday] accepts a string exactly when it is a day, a
    full stop, a month, a full stop and a year, where the day is written
    with one or two digits (a space may stand for the leading zero), the
    month with one or two digits and the year with four decimal digits,
    and these three numbers are a date of the calendar from year 1 on;
    every other string is refused with the message "Invalid date format.
    Use DD.MM.YYYY".  The texts of the strict form DD.MM.YYYY that spell
    such a date are among the accepted ones. *)
Theorem C2_birthday_validation (s : pystr) :
  (Birthday s = Ok s <-> exists dt, denotes s dt /\ valid dt)
  /\ (Birthday s <> Ok s <->
      Birthday s =
      Raise (ValueError (lit "Invalid date format. Use DD.MM.YYYY")))
  /\ (forall dt, strict_fields s = Some dt -> valid dt -> Birthday s = Ok s).
Proof.
  split; [apply Birthday_Ok_iff|]. split.
  - destruct (Birthday_cases s) as [(dt & _ & H)|[_ H]]; rewrite H;
      split; congruence.
  - intros dt Hs Hv. apply Birthday_Ok_iff. exists dt.
    split; [now apply strict_denotes | assumption].
Qed.

End BirthdayValidation.

(** C2, as stated, fails: a day and a month of one digit are accepted,
    and so is a day with a space for its leading zero; none of these
    texts has the form DD.MM.YYYY. *)
Lemma C2_lenient_formats :
  @Birthday basic_latin (lit "1.1.2020") = Ok (lit "1.1.2020")
  /\ strict_fields (lit "1.1.2020") = None
  /\ @Birthday basic_latin (lit " 1.01.2020") = Ok (lit " 1.01.2020")
  /\ strict_fields (lit " 1.01.2020") = None.
Proof. repeat split. Qed.

(* ================================================================= *)
(** * The handlers on the address book *)

Ltac run_handler :=
  unfold add_contact, change_contact, show_phone, show_all, add_birthday,
    show_birthday, birthdays, input_error, add_contact_func,
    change_contact_func, show_phone_func, show_all_func, add_birthday_func,
    show_birthday_func, birthdays_func, bind, lift, ret, call, book_find,
    book_add_record, get_book; simpl.

Section HandlerFacts.

Context {U : UnicodeOps}.

(** [add] on a name that [find] knows: the phone goes to the end of the
    record stored under the lowercased name. *)
Lemma add_contact_found (book : AddressBook) (nm p : pystr)
      (rest : list pystr) (r : record) :
  find book nm = Some r -> Phone p = Ok p ->
  add_contact (nm :: p :: rest) book =
  (Ok (lit "Contact updated."),
   dict_set book (lower nm)
     (mkRecord (name r) (phones r ++ [p]) (birthday r))).
Proof.
  intros Hf Hp. run_handler. rewrite Hf. simpl.
  unfold add_phone. rewrite Hp. reflexivity.
Qed.

(** [add] on a name that [find] does not know: a record is stored under
    the name as given, and takes the phone. *)
Lemma add_contact_new (book : AddressBook) (nm p : pystr)
      (rest : list pystr) :
  find book nm = None -> nm <> [] -> Phone p = Ok p ->
  add_contact (nm :: p :: rest) book =
  (Ok (lit "Contact added."), dict_set book nm (mkRecord nm [p] None)).
Proof.
  intros Hf Hn Hp. run_handler. rewrite Hf. simpl.
  destruct nm as [|c nm]; [contradiction|]. simpl.
  unfold add_phone. rewrite Hp. simpl.
  unfold add_record. simpl name. now rewrite dict_set_set.
Qed.

Lemma add_contact_new_invalid (book : AddressBook) (nm p : pystr)
      (rest : list pystr) :
  find book nm = None -> nm <> [] -> Phone p <> Ok p ->
  add_contact (nm :: p :: rest) book =
  (Ok (lit "Phone number must be 10 digits"),
   add_record book (mkRecord nm [] None)).
Proof.
  intros Hf Hn Hp. run_handler. rewrite Hf. simpl.
  destruct nm as [|c nm]; [contradiction|]. simpl.
  unfold add_phone.
  destruct (Phone_cases p) as [H|H]; [contradiction|].
  rewrite H. reflexivity.
Qed.

Lemma add_contact_empty_name (book : AddressBook) (p : pystr)
      (rest : list pystr) :
  find book [] = None ->
  add_contact ([] :: p :: rest) book =
  (Ok (lit "Name can't be empty"), book).
Proof.
  intros Hf. run_handler. rewrite Hf. reflexivity.
Qed.

Lemma show_phone_found (book : AddressBook) (nm : pystr)
      (rest : list pystr) (r : record) :
  find book nm = Some r ->
  show_phone (nm :: rest) book = (Ok (join (lit ", ") (phones r)), book).
Proof.
  intros Hf. run_handler. now rewrite Hf.
Qed.

Lemma show_phone_missing (book : AddressBook) (nm : pystr)
      (rest : list pystr) :
  find book nm = None ->
  show_phone (nm :: rest) book = (Ok (lit "Contact not found."), book).
Proof.
  intros Hf. run_handler. now rewrite Hf.
Qed.

Lemma edit_phone_loop_absent (ps : list pystr) (old_phone new_phone : pystr) :
  ~ In old_phone ps ->
  edit_phone_loop ps old_phone new_phone =
  Raise (ValueError (lit "Phone number not found")).
Proof.
  induction ps as [|p ps IH]; simpl; intros Hn; [reflexivity|].
  destruct (PyStr.eqb p old_phone) eqn:E.
  - apply pystr_eqb_eq in E. exfalso. apply Hn. now left.
  - rewrite IH; [reflexivity|]. intros Hin. apply Hn. now right.
Qed.

End HandlerFacts.

(* ================================================================= *)
(** * Lookup after insertion *)

Section Lookup.

Context {U : UnicodeOps}.

(** Storing a record under a key other than the one [find] computes does
    not change what [find] returns. *)
Lemma find_add_record_other (book : AddressBook) (r : record) (nm : pystr) :
  name r <> lower nm -> find (add_record book r) nm = find book nm.
Proof.
  intros Hne. unfold find, add_record. now apply dict_get_set_other.
Qed.

(** A record stored under a name that is its own lowercase is found. *)
Lemma find_add_record_lower (book : AddressBook) (r : record) (nm : pystr) :
  lower nm = name r -> find (add_record book r) nm = Some r.
Proof.
  intros He. unfold find, add_record. rewrite He. apply dict_get_set_same.
Qed.

(** C4, on the code: a record named "Bob" is stored under the key "Bob",
    and [find] looks up "bob" for either spelling, so that the record just
    added is not what [find] returns: [find] answers as it did before the
    insertion, and [None] on a book that was empty. *)
Theorem C4_mixed_case_not_found (book : AddressBook) (ps : list pystr)
        (b : option pystr) :
  lower (lit "Bob") = lit "bob" -> lower (lit "bob") = lit "bob" ->
  let r := mkRecord (lit "Bob") ps b in
  find (add_record book r) (lit "bob") = find book (lit "bob")
  /\ find (add_record book r) (lit "Bob") = find book (lit "Bob")
  /\ find (add_record [] r) (lit "bob") = None
  /\ find (add_record [] r) (lit "Bob") = None.
Proof.
  intros HB Hb r.
  assert (Hne : name r <> lit "bob") by (simpl; discriminate).
  repeat split.
  - apply find_add_record_other. now rewrite Hb.
  - apply find_add_record_other. now rewrite HB.
  - rewrite find_add_record_other by now rewrite Hb. reflexivity.
  - rewrite find_add_record_other by now rewrite HB. reflexivity.
Qed.

End Lookup.

Lemma C4_mixed_case_not_found_witness :
  @lower basic_latin (lit "Bob") = lit "bob"
  /\ @find basic_latin
       (add_record [] (mkRecord (lit "Bob") [] None)) (lit "bob") = None
  /\ @find basic_latin
       (add_record [] (mkRecord (lit "Bob") [] None)) (lit "Bob") = None.
Proof.
  split; [reflexivity|].
  pose proof (@C4_mixed_case_not_found basic_latin [] [] None
                eq_refl eq_refl) as H.
  simpl in H. destruct H as (_ & _ & H1 & H2). split; assumption.
Defined.

(* ================================================================= *)
(** * The change handler *)

Section Change.

Context {U : UnicodeOps}.

(** C5, amended: with a name, an old and a new phone, the change handler
    returns "Contact not found." when [find] has no record for the name,
    and "Phone number not found" (no full stop) when the record has no
    phone equal to the old one; the book is the same afterwards. *)
Theorem C5_change_failures (book : AddressBook) (nm old_phone new_phone : pystr)
        (rest : list pystr) :
  (find book nm = None ->
   change_contact (nm :: old_phone :: new_phone :: rest) book =
   (Ok (lit "Contact not found."), book))
  /\ (forall r, find book nm = Some r -> ~ In old_phone (phones r) ->
      change_contact (nm :: old_phone :: new_phone :: rest) book =
      (Ok (lit "Phone number not found"), book)).
Proof.
  split.
  - intros Hf. run_handler. now rewrite Hf.
  - intros r Hf Hn. run_handler. rewrite Hf. simpl.
    unfold edit_phone. now rewrite edit_phone_loop_absent.
Qed.

End Change.

(** C5, as stated, fails on the second message: the text returned has no
    full stop at its end. *)
Lemma C5_message_without_full_stop :
  @change_contact basic_latin
    [lit "bob"; lit "1111111111"; lit "2222222222"] book_bob
  = (Ok (lit "Phone number not found"), book_bob)
  /\ lit "Phone number not found" <> lit "Phone number not found.".
Proof. split; [reflexivity | discriminate]. Qed.

Lemma C5_change_failures_witness :
  @change_contact basic_latin
    [lit "al"; lit "1111111111"; lit "2222222222"] book_bob
  = (Ok (lit "Contact not found."), book_bob)
  /\ @change_contact basic_latin
       [lit "bob"; lit "1111111111"; lit "2222222222"] book_bob
     = (Ok (lit "Phone number not found"), book_bob).
Proof.
  destruct (@C5_change_failures basic_latin book_bob (lit "al")
              (lit "1111111111") (lit "2222222222") []) as [H1 _].
  destruct (@C5_change_failures basic_latin book_bob (lit "bob")
              (lit "1111111111") (lit "2222222222") []) as [_ H2].
  split.
  - apply H1. reflexivity.
  - apply (H2 (mkRecord (lit "bob") [lit "1234567890"] None)).
    + reflexivity.
    + simpl. intros [H|[]]. discriminate H.
Defined.

(* ================================================================= *)
(** * Adding phones and reading them back *)

Section Adding.

Context {U : UnicodeOps}.

(** One valid [add] under a lowercase name: the record [find] returns
    afterwards has the phones it had, then the new one. *)
Lemma add_contact_appends (book : AddressBook) (nm p : pystr) :
  nm <> [] -> lower nm = nm -> Phone p = Ok p ->
  exists r,
    find (snd (add_contact [nm; p] book)) nm = Some r
    /\ phones r = phones_of (find book nm) ++ [p]
    /\ fst (add_contact [nm; p] book) =
       Ok (match find book nm with
           | Some _ => lit "Contact updated."
           | None => lit "Contact added."
           end).
Proof.
  intros Hn Hl Hp. destruct (find book nm) as [r|] eqn:Hf.
  - rewrite (add_contact_found book nm p [] r Hf Hp).
    exists (mkRecord (name r) (phones r ++ [p]) (birthday r)).
    split; [|split; reflexivity].
    unfold find. apply dict_get_set_same.
  - rewrite (add_contact_new book nm p [] Hf Hn Hp).
    exists (mkRecord nm [p] None).
    split; [|split; reflexivity].
    unfold find. simpl snd. rewrite Hl. apply dict_get_set_same.
Qed.

Lemma add_all_phones (nm : pystr) (ps : list pystr) (book : AddressBook) :
  nm <> [] -> lower nm = nm -> Forall (fun p => Phone p = Ok p) ps ->
  phones_of (find (add_all nm ps book) nm) = phones_of (find book nm) ++ ps
  /\ (ps <> [] -> find (add_all nm ps book) nm <> None).
Proof.
  intros Hn Hl. revert book.
  induction ps as [|p ps IH]; intros book Hv; simpl.
  - rewrite app_nil_r. split; [reflexivity | congruence].
  - inversion Hv as [|? ? Hp Hps]; subst.
    destruct (add_contact_appends book nm p Hn Hl Hp) as (r & Hf & Hph & _).
    destruct (IH (snd (add_contact [nm; p] book)) Hps) as [IH1 IH2].
    unfold add_all in *. simpl. split.
    + rewrite IH1, Hf. simpl. rewrite Hph, <- app_assoc. reflexivity.
    + intros _. destruct ps as [|q ps].
      * simpl. rewrite Hf. discriminate.
      * apply IH2. discriminate.
Qed.

(** With phones already in the record, [phone] lists them first. *)
Lemma show_phone_after_adds (book : AddressBook) (nm : pystr)
      (ps : list pystr) :
  nm <> [] -> lower nm = nm -> ps <> [] ->
  Forall (fun p => Phone p = Ok p) ps ->
  show_phone [nm] (add_all nm ps book) =
  (Ok (join (lit ", ") (phones_of (find book nm) ++ ps)),
   add_all nm ps book).
Proof.
  intros Hn Hl Hne Hv.
  destruct (add_all_phones nm ps book Hn Hl Hv) as [Hph Hsome].
  destruct (find (add_all nm ps book) nm) as [r|] eqn:Hf.
  - rewrite (show_phone_found _ _ _ _ Hf). simpl in Hph. now rewrite Hph.
  - exfalso. now apply Hsome.
Qed.

(** C6, amended: for every book, every non-empty name that is its own
    lowercase and all valid phones p1 and p2, the second of two [add]
    calls for the name answers "Contact updated." and the record of the
    name then holds both phones. *)
Theorem C6_add_twice (book : AddressBook) (nm p1 p2 : pystr) :
  nm <> [] -> lower nm = nm -> Phone p1 = Ok p1 -> Phone p2 = Ok p2 ->
  add_twice_updates book nm p1 p2.
Proof.
  intros Hn Hl H1 H2. unfold add_twice_updates.
  destruct (add_contact_appends book nm p1 Hn Hl H1) as (r1 & Hf1 & Hph1 & _).
  destruct (add_contact_appends (snd (add_contact [nm; p1] book)) nm p2
              Hn Hl H2) as (r2 & Hf2 & Hph2 & Hout).
  cbv zeta. rewrite Hout, Hf1. split; [reflexivity|].
  exists r2. split; [assumption|].
  rewrite Hph2, Hf1. simpl. rewrite Hph1.
  split; apply in_or_app.
  - left. apply in_or_app. right. now left.
  - right. now left.
Qed.

(** C7, amended: for every non-empty name that is its own lowercase and
    that [find] does not know yet, and every non-empty sequence of valid
    phones added for it with [add], [phone] returns exactly these phones,
    in the order of addition, joined by a comma and a space. *)
Theorem C7_phone_roundtrip (book : AddressBook) (nm : pystr)
        (ps : list pystr) :
  nm <> [] -> lower nm = nm -> find book nm = None -> ps <> [] ->
  Forall (fun p => Phone p = Ok p) ps ->
  phone_roundtrip book nm ps.
Proof.
  intros Hn Hl Hf Hne Hv. unfold phone_roundtrip.
  rewrite (show_phone_after_adds book nm ps Hn Hl Hne Hv), Hf.
  reflexivity.
Qed.

(** C9, amended: for every book and every non-empty name that [find] does
    not know, [add] with an invalid phone answers "Phone number must be 10
    digits", and the book it leaves holds, under that name, a new record
    without any phone. *)
Theorem C9_failed_add_inserts (book : AddressBook) (nm p : pystr)
        (rest : list pystr) :
  nm <> [] -> find book nm = None -> Phone p <> Ok p ->
  let out := add_contact (nm :: p :: rest) book in
  fst out = Ok (lit "Phone number must be 10 digits")
  /\ snd out = add_record book (mkRecord nm [] None)
  /\ dict_get (snd out) nm = Some (mkRecord nm [] None).
Proof.
  intros Hn Hf Hp out. subst out.
  rewrite (add_contact_new_invalid book nm p rest Hf Hn Hp). simpl.
  repeat split. unfold add_record. simpl. apply dict_get_set_same.
Qed.

End Adding.

(** C6, as stated, fails for the empty name, which [Name] refuses, and for
    a name with a capital, which the second [add] does not find. *)
Lemma C6_fails_for_some_names :
  ~ @add_twice_updates basic_latin [] [] phone_a phone_b
  /\ ~ @add_twice_updates basic_latin [] (lit "Bob") phone_a phone_b.
Proof.
  split; intros [H _]; vm_compute in H; discriminate H.
Qed.

Lemma C6_add_twice_witness :
  @add_twice_updates basic_latin [] (lit "bob") phone_a phone_b.
Proof.
  apply (@C6_add_twice basic_latin [] (lit "bob") phone_a phone_b);
    solve [discriminate | reflexivity].
Defined.

(** C7, as stated, fails for the empty name and for a name with a
    capital: [phone] answers "Contact not found." after the [add]. *)
Lemma C7_fails_for_some_names :
  ~ @phone_roundtrip basic_latin [] [] [phone_a]
  /\ ~ @phone_roundtrip basic_latin [] (lit "Bob") [phone_a].
Proof.
  split; intros H; vm_compute in H; discriminate H.
Qed.

Lemma C7_phone_roundtrip_witness :
  @phone_roundtrip basic_latin [] (lit "bob") [phone_a; phone_b].
Proof.
  apply (@C7_phone_roundtrip basic_latin [] (lit "bob") [phone_a; phone_b]);
    try solve [discriminate | reflexivity].
  repeat constructor.
Defined.

(** C9, as stated, fails for the empty name: the answer is the message of
    [Name] and the book stays as it was. *)
Lemma C9_fails_for_empty_name :
  @find basic_latin [] [] = None
  /\ Phone (lit "12") <> Ok (lit "12")
  /\ @add_contact basic_latin [[]; lit "12"] []
     = (Ok (lit "Name can't be empty"), []).
Proof. repeat split. discriminate. Qed.

Lemma C9_failed_add_inserts_witness :
  @add_contact basic_latin [lit "bob"; lit "12"] []
  = (Ok (lit "Phone number must be 10 digits"),
     [(lit "bob", mkRecord (lit "bob") [] None)]).
Proof.
  assert (Hn : lit "bob" <> []) by discriminate.
  assert (Hp : Phone (lit "12") <> Ok (lit "12")) by discriminate.
  destruct (@C9_failed_add_inserts basic_latin [] (lit "bob") (lit "12") []
              Hn eq_refl Hp) as (H1 & H2 & _).
  rewrite (surjective_pairing (add_contact _ _)), H1, H2. reflexivity.
Defined.

(* ================================================================= *)
(** * Too few arguments *)

Section Arity.

Context {U : UnicodeOps}.

(** [required_args] and [error_message] are the arguments of the
    decorator of each handler. *)
Lemma handler_decorated (today : date) (c : command) :
  handler today c =
  input_error (required_args c) (error_message c) (func today c).
Proof. destruct c; reflexivity. Qed.

Lemma input_error_short (n : nat) (msg : pystr)
      (f : list pystr -> M pystr) (args : list pystr) (book : AddressBook) :
  (List.length args < n)%nat ->
  input_error n msg f args book = (Ok msg, book).
Proof.
  intros H. unfold input_error.
  assert (H0 : Nat.ltb 0 n = true) by (apply Nat.ltb_lt; lia).
  apply Nat.ltb_lt in H. rewrite H0, H. reflexivity.
Qed.

(** C8: a handler called with fewer arguments than its decorator asks for
    returns the message of the decorator, and the book is the one it was
    given; the wrapped function is not run. *)
Theorem C8_too_few_arguments (today : date) (c : command)
        (args : list pystr) (book : AddressBook) :
  (List.length args < required_args c)%nat ->
  handler today c args book = (Ok (error_message c), book).
Proof.
  intros H. rewrite handler_decorated. now apply input_error_short.
Qed.

End Arity.

Lemma C8_too_few_arguments_witness :
  @handler basic_latin (mkdate 2024 6 10) CmdChange
    [lit "bob"; lit "1234567890"] book_bob
  = (Ok (lit "Write name, old phone, and new phone, please"), book_bob).
Proof.
  apply (@C8_too_few_arguments basic_latin (mkdate 2024 6 10) CmdChange
           [lit "bob"; lit "1234567890"] book_bob).
  simpl. lia.
Defined.

(* ================================================================= *)
(** * The calendar: ordinals, dates and weekdays *)

(** [ord2md] on every day number of a leap year and of a common year. *)
Lemma md_ok_leap :
  forallb (fun k => md_ok true (Z.of_nat k)) (seq 0 366) = true.
Proof. vm_compute. reflexivity. Qed.

Lemma md_ok_common :
  forallb (fun k => md_ok false (Z.of_nat k)) (seq 0 365) = true.
Proof. vm_compute. reflexivity. Qed.

Lemma md_ok_all (leap : bool) (n : Z) :
  0 <= n < (if leap then 366 else 365) -> md_ok leap n = true.
Proof.
  intros H. rewrite <- (Z2Nat.id n) by lia.
  destruct leap.
  - apply (proj1 (forallb_forall _ _) md_ok_leap (Z.to_nat n)).
    apply in_seq. lia.
  - apply (proj1 (forallb_forall _ _) md_ok_common (Z.to_nat n)).
    apply in_seq. lia.
Qed.

Lemma is_leap_iff (y : Z) :
  is_leap y = true <-> y mod 4 = 0 /\ (y mod 100 <> 0 \/ y mod 400 = 0).
Proof.
  unfold is_leap. rewrite andb_true_iff, orb_true_iff, negb_true_iff.
  rewrite !Z.eqb_eq, Z.eqb_neq. reflexivity.
Qed.

(** The cycles of 400, 100, 4 and 1 years of a day number. *)
Lemma year_split (n0 : Z) :
  0 <= n0 < 3652059 ->
  let n400 := n0 / 146097 in
  let r := n0 mod 146097 in
  let n100 := r / 36524 in
  let r2 := r mod 36524 in
  let n4 := r2 / 1461 in
  let r3 := r2 mod 1461 in
  let n1 := r3 / 365 in
  let r4 := r3 mod 365 in
  let y := n400 * 400 + 1 + n100 * 100 + n4 * 4 + n1 in
  0 <= n400 <= 24 /\ 0 <= n100 <= 4 /\ 0 <= n4 <= 24 /\ 0 <= n1 <= 4 /\
  0 <= r4 <= 364 /\ n0 = n400 * 146097 + n100 * 36524 + n4 * 1461 + n1 * 365 + r4
  /\ (n100 = 4 -> n4 = 0 /\ n1 = 0 /\ r4 = 0)
  /\ (n1 = 4 -> r4 = 0 /\ n4 <= 23).
Proof.
  intros H. cbv zeta.
  repeat split; Z.div_mod_to_equations; lia.
Qed.

Lemma is_leap_false_iff (y : Z) :
  is_leap y = false <->
  ~ (y mod 4 = 0 /\ (y mod 100 <> 0 \/ y mod 400 = 0)).
Proof.
  rewrite <- is_leap_iff. destruct (is_leap y); split; congruence.
Qed.

Lemma leap_year_next (y : Z) : is_leap y = true -> is_leap (y + 1) = false.
Proof.
  intros H. apply is_leap_iff in H. apply is_leap_false_iff.
  Z.div_mod_to_equations. lia.
Qed.

Ltac leap_cases :=
  repeat match goal with
  | H : is_leap _ = true |- _ => apply is_leap_iff in H
  | H : is_leap _ = false |- _ => apply is_leap_false_iff in H
  | |- context [is_leap ?y] =>
      let E := fresh "Eleap" in destruct (is_leap y) eqn:E
  end.

(** The date of an ordinal is a date of the calendar, and its ordinal is
    the one it came from. *)
Theorem ord2ymd_toordinal (n : Z) :
  1 <= n <= MAXORDINAL ->
  valid (ord2ymd n) /\ toordinal (ord2ymd n) = n.
Proof.
  intros Hn. unfold MAXORDINAL in Hn.
  pose proof (year_split (n - 1) ltac:(lia)) as Hs. cbv zeta in Hs.
  unfold ord2ymd, DI400Y, DI100Y, DI4Y. cbv zeta.
  set (n400 := (n - 1) / 146097) in *.
  set (r := (n - 1) mod 146097) in *.
  set (n100 := r / 36524) in *.
  set (r2 := r mod 36524) in *.
  set (n4 := r2 / 1461) in *.
  set (r3 := r2 mod 1461) in *.
  set (n1 := r3 / 365) in *.
  set (r4 := r3 mod 365) in *.
  clearbody n400 r n100 r2 n4 r3 n1 r4.
  destruct Hs as (B400 & B100 & B4 & B1 & B & Hsum & H100 & H1).
  destruct ((n1 =? 4) || (n100 =? 4)) eqn:E.
  - assert (Hr : r4 = 0 /\ (n1 = 4 \/ (n100 = 4 /\ n4 = 0 /\ n1 = 0))).
    { apply orb_true_iff in E as [E|E]; apply Z.eqb_eq in E; lia. }
    assert (H23 : n1 = 4 -> n4 <= 23) by lia.
    unfold valid, toordinal, days_before_year, days_before_month,
      days_in_month, MINYEAR, MAXYEAR.
    cbn [year month day DAYS_BEFORE_MONTH DAYS_IN_MONTH Z.eqb Z.ltb
         Z.compare Pos.compare Pos.compare_cont Pos.eqb andb].
    leap_cases; (split; [|Z.div_mod_to_equations; lia]); lia.
  - apply orb_false_iff in E as [E1 E2]. apply Z.eqb_neq in E1, E2.
    set (y := n400 * 400 + 1 + n100 * 100 + n4 * 4 + n1).
    set (leap := (n1 =? 3) && (negb (n4 =? 24) || (n100 =? 3))).
    assert (Hleap : leap = is_leap y).
    { subst leap y. destruct (is_leap _) eqn:El.
      - apply is_leap_iff in El.
        apply andb_true_iff. rewrite orb_true_iff, negb_true_iff.
        rewrite !Z.eqb_eq, Z.eqb_neq. Z.div_mod_to_equations. lia.
      - apply is_leap_false_iff in El.
        apply andb_false_iff. rewrite orb_false_iff, negb_false_iff.
        rewrite !Z.eqb_eq, !Z.eqb_neq. Z.div_mod_to_equations. lia. }
    pose proof (md_ok_all leap r4 ltac:(destruct leap; lia)) as Hmd.
    unfold md_ok in Hmd. cbv zeta in Hmd.
    destruct (ord2md r4 leap) as [m d]. cbn [fst snd] in *.
    apply andb_true_iff in Hmd as [Hmd He]. apply Z.eqb_eq in He.
    apply andb_true_iff in Hmd as [Hmd Hd2]. apply Z.leb_le in Hd2.
    apply andb_true_iff in Hmd as [Hmd Hd1]. apply Z.leb_le in Hd1.
    apply andb_true_iff in Hmd as [Hm1 Hm2]. apply Z.leb_le in Hm1, Hm2.
    unfold valid, toordinal, days_before_month, days_in_month.
    cbn [year month day]. rewrite <- Hleap.
    assert (Hy : days_before_year y = n - 1 - r4).
    { unfold days_before_year. subst y. cbv zeta.
      Z.div_mod_to_equations. lia. }
    rewrite Hy. unfold MINYEAR, MAXYEAR.
    split; [|lia]. subst y. repeat split; try lia.
Qed.

Lemma month_cases (m : Z) :
  1 <= m <= 12 ->
  m = 1 \/ m = 2 \/ m = 3 \/ m = 4 \/ m = 5 \/ m = 6 \/ m = 7 \/ m = 8
  \/ m = 9 \/ m = 10 \/ m = 11 \/ m = 12.
Proof. lia. Qed.

(** The day of the year of a date is at most 365, or 366 in a leap year. *)
Lemma day_of_year_bounds (y m d : Z) :
  1 <= m <= 12 -> 1 <= d <= days_in_month y m ->
  1 <= days_before_month y m + d <= 365 + (if is_leap y then 1 else 0).
Proof.
  intros Hm Hd. unfold days_before_month, days_in_month in *.
  destruct (is_leap y);
    destruct (month_cases m Hm) as [->|[->|[->|[->|[->|[->|[->|[->|[->|[->|[->| ->]]]]]]]]]]];
    cbn [DAYS_BEFORE_MONTH DAYS_IN_MONTH Z.eqb Z.ltb Z.compare Pos.compare
         Pos.compare_cont Pos.eqb andb] in *; lia.
Qed.

Lemma toordinal_bounds (d : date) :
  valid d -> 1 <= toordinal d <= MAXORDINAL.
Proof.
  intros (Hy & Hm & Hd). unfold toordinal, MAXORDINAL.
  pose proof (day_of_year_bounds _ _ _ Hm Hd) as Hb.
  unfold MINYEAR, MAXYEAR in Hy.
  unfold days_before_year. cbv zeta.
  destruct (is_leap (year d)) eqn:El.
  - apply is_leap_iff in El. Z.div_mod_to_equations. lia.
  - Z.div_mod_to_equations. lia.
Qed.

(** Past a Saturday or a Sunday lies a Monday, one or two days later,
    and still a date; on other days nothing moves. *)
Lemma congratulation_spec (occ : date) :
  valid occ ->
  (weekday occ < 5 -> congratulation occ = occ)
  /\ (5 <= weekday occ ->
      add_days occ (7 - weekday occ) = Ok (congratulation occ)
      /\ valid (congratulation occ)
      /\ weekday (congratulation occ) = 0
      /\ toordinal occ < toordinal (congratulation occ) <= toordinal occ + 2).
Proof.
  intros Hv. pose proof (toordinal_bounds occ Hv) as Hb.
  unfold congratulation, add_days, weekday in *. unfold MAXORDINAL in *.
  split.
  - intros H. apply Z.leb_gt in H. now rewrite H.
  - intros H. assert (H' := H). apply Z.leb_le in H'. rewrite H'.
    assert (Hr : 1 <= toordinal occ + (7 - (toordinal occ + 6) mod 7)
                 <= 3652059) by (Z.div_mod_to_equations; lia).
    destruct (ord2ymd_toordinal _ Hr) as [Hvc Hoc].
    replace ((1 <=? toordinal occ + (7 - (toordinal occ + 6) mod 7))
             && (toordinal occ + (7 - (toordinal occ + 6) mod 7)
                 <=? 3652059)) with true
      by (symmetry; apply andb_true_iff; split; apply Z.leb_le; lia).
    split; [reflexivity|]. split; [assumption|]. rewrite Hoc.
    repeat split; Z.div_mod_to_equations; lia.
Qed.

Lemma days_before_year_succ (y : Z) :
  1 <= y ->
  days_before_year (y + 1) =
  days_before_year y + 365 + (if is_leap y then 1 else 0).
Proof.
  intros Hy. unfold days_before_year. cbv zeta.
  replace (y + 1 - 1) with y by lia.
  destruct (is_leap y) eqn:El.
  - apply is_leap_iff in El. Z.div_mod_to_equations. lia.
  - apply is_leap_false_iff in El. Z.div_mod_to_equations. lia.
Qed.

Lemma days_before_year_mono (y1 y2 : Z) :
  1 <= y1 <= y2 -> days_before_year y1 <= days_before_year y2.
Proof.
  intros H. unfold days_before_year. cbv zeta.
  Z.div_mod_to_equations. lia.
Qed.

Lemma days_before_month_succ (y m : Z) :
  1 <= m < 12 ->
  days_before_month y (m + 1) = days_before_month y m + days_in_month y m.
Proof.
  intros Hm. unfold days_before_month, days_in_month.
  assert (Hc : m = 1 \/ m = 2 \/ m = 3 \/ m = 4 \/ m = 5 \/ m = 6 \/ m = 7
               \/ m = 8 \/ m = 9 \/ m = 10 \/ m = 11) by lia.
  destruct (is_leap y);
    destruct Hc as [->|[->|[->|[->|[->|[->|[->|[->|[->|[->| ->]]]]]]]]]];
    reflexivity.
Qed.

Lemma days_before_month_mono (y m1 m2 : Z) :
  1 <= m1 <= m2 -> m2 <= 12 ->
  days_before_month y m1 <= days_before_month y m2.
Proof.
  intros H1 H2. unfold days_before_month.
  destruct (is_leap y);
    destruct (month_cases m1 ltac:(lia))
      as [->|[->|[->|[->|[->|[->|[->|[->|[->|[->|[->| ->]]]]]]]]]]];
    destruct (month_cases m2 ltac:(lia))
      as [->|[->|[->|[->|[->|[->|[->|[->|[->|[->|[->| ->]]]]]]]]]]];
    cbn [DAYS_BEFORE_MONTH Z.ltb Z.compare Pos.compare Pos.compare_cont andb];
    lia.
Qed.

(** The order of dates is the order of their ordinals. *)
Lemma ltb_toordinal (a b : date) :
  valid a -> valid b ->
  (Datetime.ltb a b = true <-> toordinal a < toordinal b).
Proof.
  intros (Hya & Hma & Hda) (Hyb & Hmb & Hdb).
  unfold MINYEAR, MAXYEAR in *.
  pose proof (day_of_year_bounds _ _ _ Hma Hda) as Ba.
  pose proof (day_of_year_bounds _ _ _ Hmb Hdb) as Bb.
  assert (Hlt : forall x y : date,
             1 <= year x -> 1 <= month x <= 12 ->
             1 <= day x <= days_in_month (year x) (month x) ->
             1 <= month y <= 12 -> 1 <= day y ->
             Datetime.ltb x y = true -> toordinal x < toordinal y).
  { intros x y Hx Hmx Hdx Hmy Hdy H. unfold Datetime.ltb in H.
    unfold toordinal.
    pose proof (day_of_year_bounds _ _ _ Hmx Hdx) as Bx.
    apply orb_true_iff in H as [H|H].
    - apply Z.ltb_lt in H.
      pose proof (days_before_year_succ (year x) Hx) as Hs.
      pose proof (days_before_year_mono (year x + 1) (year y) ltac:(lia)).
      assert (0 <= days_before_month (year y) (month y)).
      { pose proof (days_before_month_mono (year y) 1 (month y)
                      ltac:(lia) ltac:(lia)) as Hq.
        unfold days_before_month at 1 in Hq. simpl in Hq. lia. }
      lia.
    - apply andb_true_iff in H as [Hy H]. apply Z.eqb_eq in Hy.
      rewrite <- Hy. apply orb_true_iff in H as [H|H].
      + apply Z.ltb_lt in H.
        pose proof (days_before_month_succ (year x) (month x) ltac:(lia)).
        pose proof (days_before_month_mono (year x) (month x + 1) (month y)
                      ltac:(lia) ltac:(lia)).
        lia.
      + apply andb_true_iff in H as [Hm H]. apply Z.eqb_eq in Hm.
        apply Z.ltb_lt in H. rewrite <- Hm. lia. }
  split; [apply Hlt; lia|].
  intros H. destruct (Datetime.ltb a b) eqn:E; [reflexivity|]. exfalso.
  unfold Datetime.ltb in E.
  apply orb_false_iff in E as [E1 E2]. apply Z.ltb_ge in E1.
  destruct (Z.eq_dec (year a) (year b)) as [Ey|Ey].
  - apply Z.eqb_eq in Ey. rewrite Ey in E2. cbn [andb] in E2.
    apply orb_false_iff in E2 as [E2 E3]. apply Z.ltb_ge in E2.
    destruct (Z.eq_dec (month a) (month b)) as [Em|Em].
    + apply Z.eqb_eq in Em. rewrite Em in E3. cbn [andb] in E3.
      apply Z.ltb_ge in E3. apply Z.eqb_eq in Ey, Em.
      unfold toordinal in H. rewrite Ey, Em in H. lia.
    + assert (Hba : Datetime.ltb b a = true).
      { unfold Datetime.ltb. apply Z.eqb_eq in Ey. rewrite Ey, Z.eqb_refl.
        replace (month b <? month a) with true
          by (symmetry; apply Z.ltb_lt; lia).
        cbn. now rewrite orb_true_r. }
      apply Hlt in Hba; lia.
  - assert (Hba : Datetime.ltb b a = true).
    { unfold Datetime.ltb.
      replace (year b <? year a) with true
        by (symmetry; apply Z.ltb_lt; lia).
      reflexivity. }
    apply Hlt in Hba; lia.
Qed.

(** The next occurrence of a birthday is never before today. *)
Lemma occurrence_not_past (today p : date) :
  valid today -> valid (this_year today p) ->
  valid (occurrence today p) ->
  0 <= sub_days (occurrence today p) today.
Proof.
  intros Ht Hy Ho. unfold sub_days.
  unfold occurrence in *.
  destruct (Datetime.ltb (this_year today p) today) eqn:E.
  - assert (Hlt : Datetime.ltb today (mkdate (year today + 1) (month p)
                                        (day p)) = true).
    { unfold Datetime.ltb. cbn [year].
      replace (year today <? year today + 1) with true
        by (symmetry; apply Z.ltb_lt; lia).
      reflexivity. }
    apply ltb_toordinal in Hlt; [lia | assumption | assumption].
  - destruct (Z_lt_ge_dec (toordinal (this_year today p)) (toordinal today))
      as [Hlt|Hge]; [|lia].
    apply ltb_toordinal in Hlt; [congruence | assumption | assumption].
Qed.

(* ================================================================= *)
(** * Upcoming birthdays *)

Section Upcoming.

Context {U : UnicodeOps}.

(** A date that is not a 29 February exists in every year. *)
Lemma replace_year_regular (p : date) (y : Z) :
  valid p -> ~ leap_day p -> MINYEAR <= y <= MAXYEAR ->
  replace_year p y = Ok (mkdate y (month p) (day p))
  /\ valid (mkdate y (month p) (day p)).
Proof.
  intros (Hy & Hm & Hd) Hn Hr.
  assert (Hv : valid (mkdate y (month p) (day p))).
  { unfold valid. cbn [year month day]. repeat split; try lia.
    unfold leap_day in Hn. unfold days_in_month in *.
    destruct (month p =? 2) eqn:E.
    - apply Z.eqb_eq in E. rewrite E in *.
      cbn [andb DAYS_IN_MONTH] in *.
      destruct (is_leap (year p)), (is_leap y); lia.
    - cbn [andb] in *. lia. }
  split; [|exact Hv]. unfold replace_year. apply date_new_Ok_iff. auto.
Qed.

(** The loop on one record whose birthday is not a 29 February: the
    record is due exactly when its next occurrence is today or within the
    seven days that follow, with the congratulation day as its date. *)
Theorem upcoming_of_regular (today : date) (r : record) (b : pystr)
        (p : date) :
  MINYEAR <= year today < MAXYEAR ->
  birthday r = Some b -> strptime b = Ok p -> ~ leap_day p ->
  valid (occurrence today p)
  /\ upcoming_of today r =
     Ok (if in_window today (occurrence today p)
         then Some (mkEntry (name r)
                      (strftime (congratulation (occurrence today p))))
         else None).
Proof.
  intros Hy Hb Hp Hn.
  assert (Hvp : valid p) by (apply strptime_Ok_iff in Hp; tauto).
  destruct (replace_year_regular p (year today) Hvp Hn ltac:(lia))
    as [H1 Hv1].
  assert (Hn1 : ~ leap_day (mkdate (year today) (month p) (day p)))
    by exact Hn.
  destruct (replace_year_regular _ (year today + 1) Hv1 Hn1 ltac:(lia))
    as [H2 Hv2].
  cbn [year month day] in H2, Hv2.
  assert (Hvo : valid (occurrence today p)).
  { unfold occurrence, this_year. destruct (Datetime.ltb _ today); auto. }
  split; [exact Hvo|].
  unfold upcoming_of. rewrite Hb, Hp. cbn [rbind]. rewrite H1. cbn [rbind].
  assert (Ho : (if Datetime.ltb (mkdate (year today) (month p) (day p)) today
                then replace_year (mkdate (year today) (month p) (day p))
                       (year today + 1)
                else Ok (mkdate (year today) (month p) (day p)))
               = Ok (occurrence today p)).
  { unfold occurrence, this_year. destruct (Datetime.ltb _ today); auto. }
  rewrite Ho. cbn [rbind]. fold (in_window today (occurrence today p)).
  destruct (in_window today (occurrence today p)); [|reflexivity].
  destruct (congratulation_spec _ Hvo) as [Hw1 Hw2].
  destruct (5 <=? weekday (occurrence today p)) eqn:E.
  - apply Z.leb_le in E. destruct (Hw2 E) as (Ha & _). rewrite Ha.
    reflexivity.
  - apply Z.leb_gt in E. rewrite (Hw1 E). reflexivity.
Qed.

Lemma upcoming_loop_ok (today : date) (rs : list record) (acc : list entry) :
  Forall (fun r => exists o, upcoming_of today r = Ok o) rs ->
  upcoming_loop today rs acc = Ok (acc ++ entries_of today rs).
Proof.
  revert acc. induction rs as [|r rs IH]; intros acc H; cbn.
  - now rewrite app_nil_r.
  - inversion H as [|? ? [o Ho] Hrs]; subst.
    rewrite Ho. cbn [rbind]. rewrite IH by assumption.
    destruct o; cbn; now rewrite <- ?app_assoc.
Qed.

Theorem get_upcoming_birthdays_regular (today : date) (book : AddressBook) :
  MINYEAR <= year today < MAXYEAR ->
  Forall regular (dict_values book) ->
  get_upcoming_birthdays today book =
  Ok (entries_of today (dict_values book)).
Proof.
  intros Hy Hreg. unfold get_upcoming_birthdays.
  rewrite upcoming_loop_ok; [reflexivity|].
  eapply Forall_impl; [|exact Hreg].
  intros r Hr. unfold regular in Hr.
  destruct (birthday r) as [b|] eqn:Hb.
  - destruct Hr as (p & Hp & Hn).
    destruct (upcoming_of_regular today r b p Hy Hb Hp Hn) as [_ H].
    eauto.
  - unfold upcoming_of. rewrite Hb. eauto.
Qed.

(** The loop stops at the first record whose step raises. *)
Lemma upcoming_loop_raises (today : date) (rs : list record) (r : record)
      (acc : list entry) :
  In r rs -> (exists e, upcoming_of today r = Raise e) ->
  exists e, upcoming_loop today rs acc = Raise e.
Proof.
  revert acc. induction rs as [|r0 rs IH]; intros acc Hin [e He];
    [contradiction|].
  simpl. destruct Hin as [->|Hin].
  - rewrite He. simpl. eauto.
  - destruct (upcoming_of today r0) as [o|e0]; simpl; eauto.
Qed.

(** A birthday on 29 February in a book read in a common year: the
    replacement of the year raises, whatever the other records are. *)
Lemma leap_day_raises (today : date) (book : AddressBook) (r : record)
      (b : pystr) (p : date) :
  In r (dict_values book) -> birthday r = Some b -> strptime b = Ok p ->
  month p = 2 -> day p = 29 ->
  MINYEAR <= year today <= MAXYEAR -> is_leap (year today) = false ->
  upcoming_of today r =
    Raise (ValueError (lit "day is out of range for month"))
  /\ exists e, get_upcoming_birthdays today book = Raise e.
Proof.
  intros Hin Hb Hp Hm Hd Hy Hl.
  assert (Hr : upcoming_of today r =
               Raise (ValueError (lit "day is out of range for month"))).
  { unfold upcoming_of. rewrite Hb, Hp. simpl.
    unfold replace_year, date_new. rewrite Hm, Hd.
    unfold MINYEAR, MAXYEAR in *.
    replace ((1 <=? year today) && (year today <=? 9999)) with true
      by (symmetry; apply andb_true_iff; split; apply Z.leb_le; lia).
    unfold days_in_month. rewrite Hl. reflexivity. }
  split; [exact Hr|].
  unfold get_upcoming_birthdays.
  apply upcoming_loop_raises with (r := r); eauto.
Qed.

(** In a leap year, once 29 February is past, the birthday is moved to
    the next year, which has no such day (or is out of range). *)
Lemma leap_day_raises_after (today : date) (r : record) (b : pystr)
      (p : date) :
  birthday r = Some b -> strptime b = Ok p -> leap_day p ->
  MINYEAR <= year today <= MAXYEAR -> is_leap (year today) = true ->
  Datetime.ltb (mkdate (year today) 2 29) today = true ->
  exists msg, upcoming_of today r = Raise (ValueError msg).
Proof.
  intros Hb Hp [Hm Hd] Hy Hl Hlt.
  unfold upcoming_of. rewrite Hb, Hp. cbn [rbind].
  unfold replace_year at 1. rewrite Hm, Hd.
  assert (H1 : date_new (year today) 2 29 = Ok (mkdate (year today) 2 29)).
  { apply date_new_Ok_iff. split; [reflexivity|].
    unfold valid, days_in_month. cbn [year month day]. rewrite Hl.
    cbn. lia. }
  rewrite H1. cbn [rbind]. rewrite Hlt.
  unfold replace_year. cbn [month day].
  destruct (date_new (year today + 1) 2 29) as [d|e] eqn:E.
  - apply date_new_Ok_iff in E as [-> (_ & _ & Hv)].
    cbn [year month day] in Hv. unfold days_in_month in Hv.
    rewrite (leap_year_next _ Hl) in Hv. cbn in Hv. lia.
  - apply date_new_raises in E as [msg ->]. cbn [rbind]. eauto.
Qed.

(** Monday 10 June 2024: a birthday on 12 June is due on Wednesday the
    12th, one on Saturday 15 June is due on Monday the 17th, and one on
    18 June is not due. *)
Example window_of_10_june_2024 :
  let today := mkdate 2024 6 10 in
  upcoming_of today (mkRecord (lit "al") [] (Some (lit "12.06.1990")))
  = Ok (Some (mkEntry (lit "al") (lit "12.06.2024")))
  /\ upcoming_of today (mkRecord (lit "bo") [] (Some (lit "15.06.1985")))
     = Ok (Some (mkEntry (lit "bo") (lit "17.06.2024")))
  /\ upcoming_of today (mkRecord (lit "cy") [] (Some (lit "18.06.2000")))
     = Ok None.
Proof. repeat split. Qed.

(** 30 December 2024: a birthday on 1 January is due in 2025. *)
Example rollover_to_next_year :
  upcoming_of (mkdate 2024 12 30)
    (mkRecord (lit "al") [] (Some (lit "01.01.1990")))
  = Ok (Some (mkEntry (lit "al") (lit "01.01.2025"))).
Proof. reflexivity. Qed.
(** C10: a book the handlers build holds a birthday on 29 February 2020;
    read on 25 February 2023, a common year, [get_upcoming_birthdays]
    raises at the replacement of the year, and the [birthdays] handler
    returns the text of that exception, the book unchanged. *)
Theorem C10_leap_day_failure :
  lower (lit "bob") = lit "bob" ->
  exists (book : AddressBook) (today : date),
    reachable book
    /\ (exists r, In r (dict_values book)
                  /\ birthday r = Some (lit "29.02.2020"))
    /\ strptime (lit "29.02.2020") = Ok (mkdate 2020 2 29)
    /\ is_leap 2020 = true
    /\ valid today /\ is_leap (year today) = false
    /\ get_upcoming_birthdays today book =
       Raise (ValueError (lit "day is out of range for month"))
    /\ birthdays today [] book =
       (Ok (lit "day is out of range for month"), book).
Proof.
  intros Hl. exists book_leap, (mkdate 2023 2 25).
  split; [|split; [|repeat split; try (vm_compute; congruence)]].
  - pose (d := mkdate 2023 2 25).
    assert (H1 : snd (handler d CmdAdd [lit "bob"; lit "1234567890"] [])
                 = [(lit "bob", mkRecord (lit "bob") [lit "1234567890"] None)]).
    { simpl handler. rewrite add_contact_new;
        [reflexivity | unfold find; reflexivity | discriminate | reflexivity]. }
    assert (H2 : snd (handler d CmdAddBirthday [lit "bob"; lit "29.02.2020"]
                        [(lit "bob",
                          mkRecord (lit "bob") [lit "1234567890"] None)])
                 = book_leap).
    { simpl handler. run_handler. unfold find. rewrite Hl. reflexivity. }
    rewrite <- H2, <- H1.
    apply reachable_step, reachable_step, reachable_empty.
  - eexists. split; [left; reflexivity | reflexivity].
Qed.

(** C3, on the code: on 10 June 2023 the birthday of bob falls two days
    ahead, on a Monday, so his record is due with the date 12.06.2023,
    and the loop finds as much when it runs on his record alone; yet on
    the whole book [get_upcoming_birthdays] raises at the record of ann,
    born on a 29 February, and returns no list at all. *)
Theorem C3_leap_day_hides_due_birthday :
  let today := mkdate 2023 6 10 in
  let occ := occurrence today (mkdate 1990 6 12) in
  occ = mkdate 2023 6 12
  /\ sub_days occ today = 2 /\ in_window today occ = true
  /\ weekday occ = 0 /\ congratulation occ = occ
  /\ upcoming_of today
    (mkRecord (lit "bob") [lit "0987654321"] (Some (lit "12.06.1990")))
  = Ok (Some (mkEntry (lit "bob") (lit "12.06.2023")))
  /\ get_upcoming_birthdays today book_ann_bob =
     Raise (ValueError (lit "day is out of range for month"))
  /\ birthdays today [] book_ann_bob =
     (Ok (lit "day is out of range for month"), book_ann_bob).
Proof. repeat split. Qed.

End Upcoming.

Lemma C10_leap_day_failure_witness :
  exists (book : AddressBook) (today : date),
    @reachable basic_latin book
    /\ is_leap (year today) = false
    /\ @birthdays basic_latin today [] book =
       (Ok (lit "day is out of range for month"), book).
Proof.
  destruct (@C10_leap_day_failure basic_latin eq_refl)
    as (book & today & Hr & _ & _ & _ & _ & Hl & _ & Hb).
  exists book, today. repeat split; assumption.
Defined.
(* ================================================================= *)
(** * The methods of a record *)

Lemma edit_phone_loop_first (pre post : list pystr)
      (old_phone new_phone : pystr) :
  ~ In old_phone pre -> Phone new_phone = Ok new_phone ->
  edit_phone_loop (pre ++ old_phone :: post) old_phone new_phone =
  Ok (pre ++ new_phone :: post).
Proof.
  intros Hn Hp. induction pre as [|p pre IH]; simpl.
  - rewrite pystr_eqb_refl, Hp. reflexivity.
  - assert (Hne : p <> old_phone) by (intros ->; apply Hn; now left).
    apply pystr_eqb_neq in Hne. rewrite Hne.
    rewrite IH by (intros H; apply Hn; now right). reflexivity.
Qed.

Lemma edit_phone_loop_invalid (ps : list pystr)
      (old_phone new_phone : pystr) :
  In old_phone ps -> Phone new_phone <> Ok new_phone ->
  edit_phone_loop ps old_phone new_phone =
  Raise (ValueError (lit "Phone number must be 10 digits")).
Proof.
  intros Hin Hp. induction ps as [|p ps IH]; [contradiction|]. simpl.
  destruct (PyStr.eqb p old_phone) eqn:E.
  - destruct (Phone_cases new_phone) as [H|H]; [contradiction|].
    now rewrite H.
  - apply pystr_eqb_neq in E. destruct Hin as [->|Hin]; [contradiction|].
    now rewrite IH.
Qed.

Lemma remove_phone_absent (r : record) (phone : pystr) :
  ~ In phone (phones (remove_phone r phone)).
Proof.
  unfold remove_phone. cbn [phones]. intros H.
  apply filter_In in H as [_ H]. rewrite pystr_eqb_refl in H. discriminate.
Qed.

(** [remove_phone] takes every phone equal to the given one out of the
    record and nothing else: the other phones stay, in their order, the
    name and the birthday stay; when no phone is equal to it the record
    is left as it was, so that removing twice is removing once. *)
Theorem remove_phone_removes_all (r : record) (phone : pystr) :
  ~ In phone (phones (remove_phone r phone))
  /\ (forall p, p <> phone ->
        count_occ (list_eq_dec N.eq_dec) (phones (remove_phone r phone)) p
        = count_occ (list_eq_dec N.eq_dec) (phones r) p)
  /\ name (remove_phone r phone) = name r
  /\ birthday (remove_phone r phone) = birthday r
  /\ (~ In phone (phones r) -> remove_phone r phone = r)
  /\ remove_phone (remove_phone r phone) phone = remove_phone r phone.
Proof.
  destruct r as [n ps b]. unfold remove_phone. cbn [name phones birthday].
  assert (Hnot : ~ In phone (filter (fun p => negb (PyStr.eqb p phone)) ps)).
  { intros H. apply filter_In in H as [_ H].
    rewrite pystr_eqb_refl in H. discriminate. }
  assert (Hid : forall l, ~ In phone l ->
                  filter (fun p => negb (PyStr.eqb p phone)) l = l).
  { induction l as [|q l IH]; intros Hn; simpl; [reflexivity|].
    assert (Hq : q <> phone) by (intros ->; apply Hn; now left).
    apply pystr_eqb_neq in Hq. rewrite Hq. simpl.
    rewrite IH; [reflexivity|]. intros H. apply Hn. now right. }
  repeat split; auto.
  - intros p Hp. induction ps as [|q ps IH]; simpl; [reflexivity|].
    destruct (PyStr.eqb q phone) eqn:E; simpl.
    + apply pystr_eqb_eq in E. subst q.
      destruct (list_eq_dec N.eq_dec phone p); [congruence|].
      apply IH. intros H. apply filter_In in H as [_ H].
      rewrite pystr_eqb_refl in H. discriminate.
    + destruct (list_eq_dec N.eq_dec q p); rewrite IH; auto;
        intros H; apply filter_In in H as [_ H];
        rewrite pystr_eqb_refl in H; discriminate.
  - intros Hn. now rewrite Hid.
  - now rewrite Hid.
Qed.

(** [find_phone] returns the phone itself when the record holds one equal
    to it and [None] otherwise: it finds a phone just added and does not
    find one just removed. *)
Theorem find_phone_finds (r : record) (phone : pystr) :
  (In phone (phones r) -> find_phone r phone = Some phone)
  /\ (~ In phone (phones r) -> find_phone r phone = None)
  /\ (forall r', add_phone r phone = Ok r' ->
        find_phone r' phone = Some phone)
  /\ find_phone (remove_phone r phone) phone = None.
Proof.
  assert (Hin : forall l, In phone l ->
                  List.find (fun p => PyStr.eqb p phone) l = Some phone).
  { induction l as [|q l IH]; intros H; [contradiction|]. simpl.
    destruct (PyStr.eqb q phone) eqn:E.
    - apply pystr_eqb_eq in E. now subst.
    - apply pystr_eqb_neq in E. destruct H as [->|H]; [contradiction|].
      now apply IH. }
  assert (Hout : forall l, ~ In phone l ->
                  List.find (fun p => PyStr.eqb p phone) l = None).
  { induction l as [|q l IH]; intros H; [reflexivity|]. simpl.
    assert (Hq : q <> phone) by (intros ->; apply H; now left).
    apply pystr_eqb_neq in Hq. rewrite Hq. apply IH.
    intros H'. apply H. now right. }
  unfold find_phone. repeat split; auto.
  - intros r' Ha. unfold add_phone in Ha.
    destruct (Phone_cases phone) as [H|H]; rewrite H in Ha;
      [|discriminate].
    injection Ha as <-. cbn [phones]. apply Hin.
    apply in_or_app. right. now left.
  - apply Hout. apply remove_phone_absent.
Qed.

(* ================================================================= *)
(** * Changing a phone, setting and reading a birthday *)

Section MoreHandlers.

Context {U : UnicodeOps}.

(** [change] on a record that holds the old phone, with a valid new one:
    the answer is "Phone number updated.", the first phone equal to the
    old one takes the new value where it stands, the phones before and
    after it, the name and the birthday are kept, and [phone] then lists
    the phones so changed. *)
Theorem change_contact_replaces_first (book : AddressBook)
        (nm old_phone new_phone : pystr) (rest : list pystr) (r : record)
        (pre post : list pystr) :
  find book nm = Some r -> phones r = pre ++ old_phone :: post ->
  ~ In old_phone pre -> Phone new_phone = Ok new_phone ->
  let out := change_contact (nm :: old_phone :: new_phone :: rest) book in
  fst out = Ok (lit "Phone number updated.")
  /\ snd out = dict_set book (lower nm)
                 (mkRecord (name r) (pre ++ new_phone :: post) (birthday r))
  /\ show_phone [nm] (snd out)
     = (Ok (join (lit ", ") (pre ++ new_phone :: post)), snd out).
Proof.
  intros Hf Hph Hn Hp out. subst out. run_handler. rewrite Hf. simpl.
  unfold edit_phone. rewrite Hph, edit_phone_loop_first by assumption.
  simpl. repeat split.
  unfold find. rewrite dict_get_set_same. reflexivity.
Qed.

(** [change] on a record that holds the old phone, with an invalid new
    one: the answer is the message of the validation and the book is as
    it was. *)
Theorem change_contact_invalid_new (book : AddressBook)
        (nm old_phone new_phone : pystr) (rest : list pystr) (r : record) :
  find book nm = Some r -> In old_phone (phones r) ->
  Phone new_phone <> Ok new_phone ->
  change_contact (nm :: old_phone :: new_phone :: rest) book =
  (Ok (lit "Phone number must be 10 digits"), book).
Proof.
  intros Hf Hin Hp. run_handler. rewrite Hf. simpl.
  unfold edit_phone. now rewrite edit_phone_loop_invalid.
Qed.

(** [add-birthday] on a contact that [find] knows, with a valid date: the
    answer is "Birthday added.", the record keeps its name and phones and
    takes the text as it was typed, in place of the birthday it had, and
    [show-birthday] returns that text. *)
Theorem add_birthday_then_show (book : AddressBook) (nm b : pystr)
        (rest : list pystr) (r : record) :
  find book nm = Some r -> Birthday b = Ok b ->
  let out := add_birthday (nm :: b :: rest) book in
  fst out = Ok (lit "Birthday added.")
  /\ snd out = dict_set book (lower nm)
                 (mkRecord (name r) (phones r) (Some b))
  /\ show_birthday [nm] (snd out) = (Ok b, snd out).
Proof.
  intros Hf Hb out. subst out. run_handler. rewrite Hf. simpl.
  unfold add_birthday_to. rewrite Hb. simpl. repeat split.
  unfold find. rewrite dict_get_set_same. reflexivity.
Qed.

(** [add-birthday] that fails leaves the book as it was: "Contact not
    found." for a name [find] does not know, whatever the date, and the
    message of the validation for a date [Birthday] refuses. *)
Theorem add_birthday_failures (book : AddressBook) (nm b : pystr)
        (rest : list pystr) :
  (find book nm = None ->
   add_birthday (nm :: b :: rest) book =
   (Ok (lit "Contact not found."), book))
  /\ (forall r, find book nm = Some r -> Birthday b <> Ok b ->
      add_birthday (nm :: b :: rest) book =
      (Ok (lit "Invalid date format. Use DD.MM.YYYY"), book)).
Proof.
  split.
  - intros Hf. run_handler. now rewrite Hf.
  - intros r Hf Hb. run_handler. rewrite Hf. simpl.
    unfold add_birthday_to.
    destruct (Birthday_cases b) as [(dt & _ & H)|[_ H]]; [contradiction|].
    now rewrite H.
Qed.

(** [show-birthday] answers "No birthday found." both for a name [find]
    does not know and for a contact without a birthday. *)
Theorem show_birthday_none (book : AddressBook) (nm : pystr)
        (rest : list pystr) :
  (find book nm = None \/
   exists r, find book nm = Some r /\ birthday r = None) ->
  show_birthday (nm :: rest) book = (Ok (lit "No birthday found."), book).
Proof.
  intros [Hf|(r & Hf & Hb)]; run_handler; rewrite Hf; [reflexivity|].
  destruct r as [n ps bd]. simpl in Hb. now subst.
Qed.

(** The handlers that only read: [phone], [all], [show-birthday] and
    [birthdays] leave the book as it was, whatever their arguments and
    whatever they answer. *)
Theorem queries_leave_book (today : date) (c : command)
        (args : list pystr) (book : AddressBook) :
  c = CmdPhone \/ c = CmdAll \/ c = CmdShowBirthday \/ c = CmdBirthdays ->
  snd (handler today c args book) = book.
Proof.
  intros [->|[->|[->| ->]]]; simpl handler; run_handler.
  - destruct args as [|a args]; simpl; [reflexivity|].
    destruct (find book a); reflexivity.
  - destruct book; reflexivity.
  - destruct args as [|a args]; simpl; [reflexivity|].
    destruct (find book a) as [[n ps [b|]]|]; reflexivity.
  - destruct (get_upcoming_birthdays today book) as [[|e l]|e];
      reflexivity.
Qed.

(** [all] answers "Address book is empty." on the empty book and on no
    other: the listing of a book that holds a contact starts with the
    line of its first contact. *)
Theorem show_all_empty_iff (args : list pystr) (book : AddressBook) :
  (fst (show_all args book) = Ok (lit "Address book is empty.")
   <-> book = [])
  /\ (forall k r rest, book = (k, r) :: rest ->
        exists tail,
          fst (show_all args book)
          = Ok (lit "Contact name: " ++ name r ++ tail)).
Proof.
  assert (Hl : forall k r rest, book = (k, r) :: rest ->
             exists tail,
               fst (show_all args book)
               = Ok (lit "Contact name: " ++ name r ++ tail)).
  { intros k r rest ->. unfold show_all, input_error, show_all_func, bind,
      get_book, ret, book_str, dict_values.
    cbn [Nat.ltb Nat.leb andb fst map snd].
    destruct (map snd rest) as [|r2 rs]; cbn [map join];
      unfold record_str at 1; eexists; rewrite <- ?app_assoc;
      reflexivity. }
  split; [|exact Hl]. split.
  - destruct book as [|[k r] rest]; [reflexivity|]. intros H.
    destruct (Hl k r rest eq_refl) as [tail Ht]. rewrite Ht in H.
    discriminate H.
  - intros ->. reflexivity.
Qed.

End MoreHandlers.

(* ================================================================= *)
(** * What the handlers keep *)

Section DictMore.

Context {V : Type}.

Lemma dict_get_None_iff (d : dict V) (k : pystr) :
  dict_get d k = None <-> ~ In k (map fst d).
Proof.
  induction d as [|[k' v] d IH]; simpl; [tauto|].
  destruct (PyStr.eqb k' k) eqn:E.
  - apply pystr_eqb_eq in E. split; [discriminate | intros H; tauto].
  - apply pystr_eqb_neq in E. rewrite IH. tauto.
Qed.

Lemma dict_get_In (d : dict V) (k : pystr) (v : V) :
  dict_get d k = Some v -> In (k, v) d.
Proof.
  induction d as [|[k' v'] d IH]; simpl; [discriminate|].
  destruct (PyStr.eqb k' k) eqn:E.
  - apply pystr_eqb_eq in E. intros H. injection H as <-. subst. now left.
  - intros H. right. now apply IH.
Qed.

(** Writing under a key that is there keeps the keys and their order;
    writing under a new key puts it last. *)
Lemma dict_set_keys (d : dict V) (k : pystr) (v : V) :
  map fst (dict_set d k v) =
  map fst d ++ (match dict_get d k with
                | Some _ => []
                | None => [k]
                end).
Proof.
  induction d as [|[k' v'] d IH]; simpl; [reflexivity|].
  destruct (PyStr.eqb k' k) eqn:E; simpl.
  - now rewrite app_nil_r.
  - now rewrite IH.
Qed.

Lemma dict_set_In (d : dict V) (k : pystr) (v : V) (kv : pystr * V) :
  In kv (dict_set d k v) -> kv = (k, v) \/ In kv d.
Proof.
  induction d as [|[k' v'] d IH]; simpl.
  - intros [<-|[]]. now left.
  - destruct (PyStr.eqb k' k) eqn:E; simpl.
    + apply pystr_eqb_eq in E. subst k'. intros [<-|H]; auto.
    + intros [<-|H]; auto. destruct (IH H); auto.
Qed.

Lemma dict_del_absent (d : dict V) (k : pystr) :
  dict_get d k = None -> dict_del d k = d.
Proof.
  induction d as [|[k' v'] d IH]; simpl; [reflexivity|].
  destruct (PyStr.eqb k' k); [discriminate|]. intros H. now rewrite IH.
Qed.

Lemma dict_get_del_other (d : dict V) (k k' : pystr) :
  k <> k' -> dict_get (dict_del d k) k' = dict_get d k'.
Proof.
  intros Hne. induction d as [|[k0 v0] d IH]; simpl; [reflexivity|].
  destruct (PyStr.eqb k0 k) eqn:E; simpl.
  - apply pystr_eqb_eq in E. subst k0.
    apply pystr_eqb_neq in Hne. now rewrite Hne.
  - now rewrite IH.
Qed.

Lemma dict_get_del_same (d : dict V) (k : pystr) :
  NoDup (map fst d) -> dict_get (dict_del d k) k = None.
Proof.
  induction d as [|[k0 v0] d IH]; simpl; intros Hnd; [reflexivity|].
  inversion Hnd as [|? ? Hn Hnd']; subst.
  destruct (PyStr.eqb k0 k) eqn:E; simpl.
  - apply pystr_eqb_eq in E. subst k0. now apply dict_get_None_iff.
  - rewrite E. now apply IH.
Qed.

End DictMore.

Section Keeping.

Context {U : UnicodeOps}.

(** [delete] takes out the record stored under exactly the given key and
    no other; on a key that is not there it does nothing.  [find] looks
    up the lowercased name, so that it misses the deleted record when
    the name given to both is its own lowercase. *)
Theorem delete_exact_key (book : AddressBook) (nm : pystr) :
  NoDup (map fst book) ->
  dict_get (delete book nm) nm = None
  /\ (forall k, k <> nm -> dict_get (delete book nm) k = dict_get book k)
  /\ (dict_get book nm = None -> delete book nm = book)
  /\ (lower nm = nm -> find (delete book nm) nm = None).
Proof.
  intros Hnd. unfold delete, find. repeat split.
  - now apply dict_get_del_same.
  - intros k Hk. apply dict_get_del_other. congruence.
  - apply dict_del_absent.
  - intros ->. now apply dict_get_del_same.
Qed.

Lemma wf_book_get (book : AddressBook) (k : pystr) (r : record) :
  wf_book book -> dict_get book k = Some r -> wf_record k r.
Proof.
  intros [_ Hall] Hg. apply dict_get_In in Hg.
  rewrite Forall_forall in Hall. exact (Hall _ Hg).
Qed.

Lemma wf_book_set (book : AddressBook) (k : pystr) (r : record) :
  wf_book book -> wf_record k r -> wf_book (dict_set book k r).
Proof.
  intros [Hnd Hall] Hr. split.
  - rewrite dict_set_keys. destruct (dict_get book k) eqn:E.
    + now rewrite app_nil_r.
    + apply dict_get_None_iff in E.
      apply NoDup_app; [assumption | repeat constructor; intros [] |].
      intros x Hx [<-|[]]. contradiction.
  - apply Forall_forall. intros kv Hin.
    apply dict_set_In in Hin as [->|Hin]; [exact Hr|].
    rewrite Forall_forall in Hall. now apply Hall.
Qed.

Lemma edit_phone_loop_valid (ps ps' : list pystr)
      (old_phone new_phone : pystr) :
  Forall (fun p => Phone p = Ok p) ps ->
  edit_phone_loop ps old_phone new_phone = Ok ps' ->
  Forall (fun p => Phone p = Ok p) ps' /\ List.length ps' = List.length ps.
Proof.
  revert ps'. induction ps as [|p ps IH]; intros ps' Hv; simpl;
    [discriminate|].
  inversion Hv as [|? ? Hp Hps]; subst.
  destruct (PyStr.eqb p old_phone).
  - destruct (Phone_cases new_phone) as [H|H]; rewrite H; simpl;
      [|discriminate].
    intros E. injection E as <-. split; [now constructor | reflexivity].
  - destruct (edit_phone_loop ps old_phone new_phone) as [l|e]; simpl;
      [|discriminate].
    intros E. injection E as <-. destruct (IH l Hps eq_refl) as [H1 H2].
    split; [now constructor | simpl; now rewrite H2].
Qed.

(** Every handler keeps a book in good order. *)
Lemma handler_keeps_wf (today : date) (c : command) (args : list pystr)
      (book : AddressBook) :
  wf_book book -> wf_book (snd (handler today c args book)).
Proof.
  intros Hwf.
  destruct c; simpl handler.
  - (* add *)
    destruct args as [|nm [|p rest]]; try exact Hwf.
    destruct (find book nm) as [r|] eqn:Hf.
    + destruct (Phone_cases p) as [Hp|Hp].
      * rewrite (add_contact_found _ _ _ _ _ Hf Hp). simpl.
        apply wf_book_set; [assumption|].
        destruct (wf_book_get _ _ _ Hwf Hf) as (Hk & Hn & Hps & Hb).
        repeat split; auto. cbn [phones].
        apply Forall_app. split; [assumption | now constructor].
      * run_handler. rewrite Hf. simpl. unfold add_phone. rewrite Hp.
        exact Hwf.
    + destruct nm as [|ch nm].
      * rewrite (add_contact_empty_name _ _ _ Hf). exact Hwf.
      * assert (Hne : ch :: nm <> []) by discriminate.
        destruct (Phone_cases p) as [Hp|Hp].
        -- rewrite (add_contact_new _ _ _ _ Hf Hne Hp). simpl.
           apply wf_book_set; [assumption|].
           repeat split; auto. cbn [phones]. now constructor.
        -- assert (Hp' : Phone p <> Ok p) by (rewrite Hp; discriminate).
           rewrite (add_contact_new_invalid _ _ _ _ Hf Hne Hp'). simpl.
           apply wf_book_set; [assumption|].
           repeat split; auto.
  - (* change *)
    destruct args as [|nm [|o [|n rest]]]; try exact Hwf.
    run_handler. destruct (find book nm) as [r|] eqn:Hf; simpl;
      [|exact Hwf].
    unfold edit_phone.
    destruct (edit_phone_loop (phones r) o n) as [l|e] eqn:He; simpl.
    + apply wf_book_set; [assumption|].
      destruct (wf_book_get _ _ _ Hwf Hf) as (Hk & Hn & Hps & Hb).
      repeat split; auto. cbn [phones].
      now apply (edit_phone_loop_valid _ _ _ _ Hps He).
    + destruct e; exact Hwf.
  - (* phone *)
    run_handler. destruct args as [|a args]; simpl; [exact Hwf|].
    destruct (find book a); exact Hwf.
  - (* all *)
    run_handler. destruct book; exact Hwf.
  - (* add-birthday *)
    destruct args as [|nm [|b rest]]; try exact Hwf.
    run_handler. destruct (find book nm) as [r|] eqn:Hf; simpl;
      [|exact Hwf].
    unfold add_birthday_to.
    destruct (Birthday_cases b) as [(dt & _ & Hb)|[_ Hb]]; rewrite Hb;
      simpl; [|exact Hwf].
    apply wf_book_set; [assumption|].
    destruct (wf_book_get _ _ _ Hwf Hf) as (Hk & Hn & Hps & _).
    repeat split; auto.
  - (* show-birthday *)
    run_handler. destruct args as [|a args]; simpl; [exact Hwf|].
    destruct (find book a) as [[n ps [b|]]|]; exact Hwf.
  - (* birthdays *)
    run_handler.
    destruct (get_upcoming_birthdays today book) as [[|e l]|e];
      exact Hwf.
Qed.

Lemma reachable_wf (book : AddressBook) : reachable book -> wf_book book.
Proof.
  induction 1 as [|today c args book _ IH].
  - split; constructor.
  - now apply handler_keeps_wf.
Qed.

(** The books the handlers build from the empty one are in good order:
    no two records under one key, each record under its own name, no
    empty name, every phone a valid one and every birthday one that
    parses to a date of the calendar.  So the record [find] returns for a
    name bears the lowercased name. *)
Theorem reachable_books_well_formed (book : AddressBook) :
  reachable book ->
  wf_book book
  /\ (forall nm r, find book nm = Some r ->
        name r = lower nm /\ name r <> []
        /\ Forall (fun p => Phone p = Ok p) (phones r))
  /\ (forall r b, In r (dict_values book) -> birthday r = Some b ->
        exists p, strptime b = Ok p /\ valid p).
Proof.
  intros Hr. pose proof (reachable_wf book Hr) as Hwf.
  split; [exact Hwf|]. split.
  - intros nm r Hf. unfold find in Hf.
    destruct (wf_book_get _ _ _ Hwf Hf) as (Hk & Hn & Hps & _). auto.
  - intros r b Hin Hb. unfold dict_values in Hin.
    apply in_map_iff in Hin as ([k r'] & E & Hin). cbn [snd] in E. subst r'.
    destruct Hwf as [_ Hall]. rewrite Forall_forall in Hall.
    destruct (Hall _ Hin) as (_ & _ & _ & Hbd). cbn [snd] in Hbd.
    rewrite Hb in Hbd.
    destruct (Birthday_cases b) as [(dt & Hs & _)|[_ H]]; [|congruence].
    exists dt. split; [assumption|]. apply strptime_Ok_iff in Hs. tauto.
Qed.

(** No handler takes a contact out of the book or changes the order of
    the contacts: the keys after a command are the keys before it,
    followed by at most one new key. *)
Theorem handlers_keep_contacts (today : date) (c : command)
        (args : list pystr) (book : AddressBook) :
  exists ks, map fst (snd (handler today c args book)) = map fst book ++ ks
             /\ (List.length ks <= 1)%nat.
Proof.
  assert (Hsame : exists ks, map fst book = map fst book ++ ks
                             /\ (List.length ks <= 1)%nat)
    by (exists []; rewrite app_nil_r; simpl; auto).
  assert (Hset : forall k r, exists ks,
             map fst (dict_set book k r) = map fst book ++ ks
             /\ (List.length ks <= 1)%nat).
  { intros k r. rewrite dict_set_keys. eexists. split; [reflexivity|].
    destruct (dict_get book k); simpl; auto. }
  destruct c; simpl handler.
  - destruct args as [|nm [|p rest]]; try exact Hsame.
    destruct (find book nm) as [r|] eqn:Hf.
    + destruct (Phone_cases p) as [Hp|Hp].
      * rewrite (add_contact_found _ _ _ _ _ Hf Hp). apply Hset.
      * run_handler. rewrite Hf. simpl. unfold add_phone. rewrite Hp.
        exact Hsame.
    + destruct nm as [|ch nm].
      * rewrite (add_contact_empty_name _ _ _ Hf). exact Hsame.
      * assert (Hne : ch :: nm <> []) by discriminate.
        destruct (Phone_cases p) as [Hp|Hp].
        -- rewrite (add_contact_new _ _ _ _ Hf Hne Hp). apply Hset.
        -- assert (Hp' : Phone p <> Ok p) by (rewrite Hp; discriminate).
           rewrite (add_contact_new_invalid _ _ _ _ Hf Hne Hp').
           apply Hset.
  - destruct args as [|nm [|o [|n rest]]]; try exact Hsame.
    run_handler. destruct (find book nm) as [r|] eqn:Hf; simpl;
      [|exact Hsame].
    destruct (edit_phone r o n) as [r'|e]; simpl; [apply Hset|].
    destruct e; exact Hsame.
  - run_handler. destruct args as [|a args]; simpl; [exact Hsame|].
    destruct (find book a); exact Hsame.
  - run_handler. destruct book; exact Hsame.
  - destruct args as [|nm [|b rest]]; try exact Hsame.
    run_handler. destruct (find book nm) as [r|] eqn:Hf; simpl;
      [|exact Hsame].
    destruct (add_birthday_to r b) as [r'|e]; simpl; [apply Hset|].
    destruct e; exact Hsame.
  - run_handler. destruct args as [|a args]; simpl; [exact Hsame|].
    destruct (find book a) as [[n ps [b|]]|]; exact Hsame.
  - run_handler.
    destruct (get_upcoming_birthdays today book) as [[|e l]|e];
      exact Hsame.
Qed.

End Keeping.

(* ================================================================= *)
(** * The list of upcoming birthdays, record by record *)

Section UpcomingMore.

Context {U : UnicodeOps}.

(** The end of the step, from the occurrence on: on a date of the
    calendar it does not raise. *)
Lemma upcoming_tail (today occ : date) (nm : pystr) :
  valid occ ->
  (if (0 <=? sub_days occ today) && (sub_days occ today <=? 7)
   then
     congrats_day <- (if 5 <=? weekday occ
                      then add_days occ (7 - weekday occ)
                      else Ok occ) ;;
     Ok (Some (mkEntry nm (strftime congrats_day)))
   else Ok None)
  = Ok (if in_window today occ
        then Some (mkEntry nm (strftime (congratulation occ)))
        else None).
Proof.
  intros Hv. fold (in_window today occ).
  destruct (congratulation_spec occ Hv) as [Hw1 Hw2].
  destruct (in_window today occ); [|reflexivity].
  destruct (5 <=? weekday occ) eqn:E.
  - apply Z.leb_le in E. destruct (Hw2 E) as [-> _]. reflexivity.
  - apply Z.leb_gt in E. now rewrite (Hw1 E).
Qed.

(** The step of the loop on one record: what it returns when it returns,
    and the one kind of exception it raises. *)
Lemma upcoming_of_cases (today : date) (r : record) :
  match upcoming_of today r with
  | Ok o =>
      (birthday r = None /\ o = None)
      \/ exists b p occ,
           birthday r = Some b /\ strptime b = Ok p /\ valid occ
           /\ month occ = month p /\ day occ = day p
           /\ (year occ = year today \/ year occ = year today + 1)
           /\ o = if in_window today occ
                  then Some (mkEntry (name r)
                               (strftime (congratulation occ)))
                  else None
  | Raise e => exists msg, e = ValueError msg
  end.
Proof.
  unfold upcoming_of. destruct (birthday r) as [b|] eqn:Hb; [|now left].
  destruct (strptime b) as [p|e] eqn:Hp; cbn [rbind];
    [|now apply strptime_raises in Hp].
  unfold replace_year at 1.
  destruct (date_new (year today) (month p) (day p)) as [d1|e] eqn:H1;
    cbn [rbind]; [|now apply date_new_raises in H1].
  apply date_new_Ok_iff in H1 as [-> Hv1].
  destruct (Datetime.ltb _ today).
  - unfold replace_year. cbn [month day].
    destruct (date_new (year today + 1) (month p) (day p)) as [d2|e]
      eqn:H2; cbn [rbind]; [|now apply date_new_raises in H2].
    apply date_new_Ok_iff in H2 as [-> Hv2].
    rewrite (upcoming_tail today _ (name r) Hv2).
    right. exists b, p, (mkdate (year today + 1) (month p) (day p)).
    cbn [year month day]. auto 10.
  - cbn [rbind]. rewrite (upcoming_tail today _ (name r) Hv1).
    right. exists b, p, (mkdate (year today) (month p) (day p)).
    cbn [year month day]. auto 10.
Qed.

Lemma upcoming_loop_inv (today : date) (rs : list record) (acc : list entry) :
  match upcoming_loop today rs acc with
  | Ok l =>
      Forall (fun r => exists o, upcoming_of today r = Ok o) rs
      /\ l = acc ++ entries_of today rs
  | Raise e => exists r, In r rs /\ upcoming_of today r = Raise e
  end.
Proof.
  revert acc. induction rs as [|r rs IH]; intros acc; cbn.
  - split; [constructor | now rewrite app_nil_r].
  - destruct (upcoming_of today r) as [o|e] eqn:Ho; cbn [rbind].
    + specialize (IH (match o with
                      | Some x => acc ++ [x]
                      | None => acc
                      end)).
      destruct (upcoming_loop today rs _) as [l|e].
      * destruct IH as [Hall ->]. split; [constructor; eauto|].
        destruct o; cbn; now rewrite <- ?app_assoc.
      * destruct IH as (r' & Hin & Hr'). exists r'. auto.
    + exists r. auto.
Qed.

(** [get_upcoming_birthdays] returns a list exactly when the step of the
    loop succeeds on every record of the book; the list is then made of
    the entries of the records that are due, at most one for each, in the
    order of the book.  When the step raises on some record, the call
    raises and the entries found before are lost. *)
Theorem upcoming_list_all_or_nothing (today : date) (book : AddressBook)
        (l : list entry) :
  (get_upcoming_birthdays today book = Ok l <->
   Forall (fun r => exists o, upcoming_of today r = Ok o)
          (dict_values book)
   /\ l = entries_of today (dict_values book))
  /\ ((exists r e, In r (dict_values book)
                   /\ upcoming_of today r = Raise e) ->
      exists msg, get_upcoming_birthdays today book
                  = Raise (ValueError msg)).
Proof.
  unfold get_upcoming_birthdays.
  pose proof (upcoming_loop_inv today (dict_values book) []) as H.
  split; [split|].
  - intros E. rewrite E in H. exact H.
  - intros [Hall ->]. now rewrite upcoming_loop_ok.
  - intros (r & e & Hin & Hr).
    destruct (upcoming_loop today (dict_values book) []) as [l'|e'].
    + destruct H as [Hall _]. rewrite Forall_forall in Hall.
      destruct (Hall r Hin) as [o Ho]. congruence.
    + destruct H as (r' & _ & Hr').
      pose proof (upcoming_of_cases today r') as Hc. rewrite Hr' in Hc.
      destruct Hc as [msg ->]. eauto.
Qed.

(** Every entry of the list is for a record of the book, under its name,
    for an occurrence of its birthday that falls today or within the
    seven days that follow, in this year or the next; its date is never
    a Saturday or a Sunday, and is the occurrence or one of the two days
    after it. *)
Theorem upcoming_entries_on_weekdays (today : date) (book : AddressBook)
        (l : list entry) (e : entry) :
  get_upcoming_birthdays today book = Ok l -> In e l ->
  exists r b p occ,
    In r (dict_values book) /\ birthday r = Some b /\ strptime b = Ok p
    /\ entry_name e = name r
    /\ valid occ /\ month occ = month p /\ day occ = day p
    /\ (year occ = year today \/ year occ = year today + 1)
    /\ 0 <= sub_days occ today <= 7
    /\ entry_birthday e = strftime (congratulation occ)
    /\ valid (congratulation occ)
    /\ 0 <= weekday (congratulation occ) < 5
    /\ 0 <= sub_days (congratulation occ) occ <= 2.
Proof.
  intros Hl Hin. unfold get_upcoming_birthdays in Hl.
  pose proof (upcoming_loop_inv today (dict_values book) []) as H.
  rewrite Hl in H. destruct H as [_ ->]. cbn [app] in Hin.
  unfold entries_of in Hin. apply in_flat_map in Hin as (r & Hr & He).
  pose proof (upcoming_of_cases today r) as Hc.
  destruct (upcoming_of today r) as [[x|]|]; try contradiction.
  destruct He as [<-|[]].
  destruct Hc as [[_ Hc]|(b & p & occ & Hb & Hp & Hv & Hm & Hd & Hy & Hx)];
    [discriminate|].
  destruct (in_window today occ) eqn:Ew; [|discriminate].
  injection Hx as ->.
  unfold in_window in Ew. apply andb_true_iff in Ew as [E1 E2].
  apply Z.leb_le in E1, E2.
  destruct (congratulation_spec occ Hv) as [Hw1 Hw2].
  exists r, b, p, occ. cbn [entry_name entry_birthday].
  assert (Hwd : 0 <= weekday occ < 7)
    by (unfold weekday; apply Z.mod_pos_bound; lia).
  destruct (Z_lt_ge_dec (weekday occ) 5) as [Hlt|Hge].
  - rewrite (Hw1 Hlt). unfold sub_days in *.
    repeat (split; [solve [assumption | reflexivity | lia]|]). lia.
  - destruct (Hw2 ltac:(lia)) as (_ & Hvc & Hwc & Hoc).
    unfold sub_days in *.
    repeat (split; [solve [assumption | reflexivity | lia]|]). lia.
Qed.

End UpcomingMore.

(* ================================================================= *)
(** * No exception leaves a handler *)

Section Answers.

Context {U : UnicodeOps}.

Lemma edit_phone_loop_raises (ps : list pystr) (o n : pystr) (e : exn) :
  edit_phone_loop ps o n = Raise e -> exists msg, e = ValueError msg.
Proof.
  induction ps as [|p ps IH]; simpl.
  - intros H. injection H as <-. eauto.
  - destruct (PyStr.eqb p o).
    + destruct (Phone_cases n) as [H|H]; rewrite H; simpl;
        [discriminate|].
      intros E. injection E as <-. eauto.
    + destruct (edit_phone_loop ps o n) as [l|e']; simpl; [discriminate|].
      intros E. injection E as <-. now apply IH.
Qed.

Lemma get_upcoming_birthdays_raises (today : date) (book : AddressBook)
      (e : exn) :
  get_upcoming_birthdays today book = Raise e ->
  exists msg, e = ValueError msg.
Proof.
  unfold get_upcoming_birthdays. intros H.
  pose proof (upcoming_loop_inv today (dict_values book) []) as Hi.
  rewrite H in Hi. destruct Hi as (r & _ & Hr).
  pose proof (upcoming_of_cases today r) as Hc. now rewrite Hr in Hc.
Qed.

(** Every handler answers with a string, on every book, with any
    arguments, on any day. *)
Lemma handler_answers (today : date) (c : command) (args : list pystr)
      (book : AddressBook) :
  exists s, fst (handler today c args book) = Ok s.
Proof.
  destruct c; simpl handler.
  - destruct args as [|nm [|p rest]]; try (eexists; reflexivity).
    run_handler. destruct (find book nm) as [r|]; simpl.
    + unfold add_phone. destruct (Phone_cases p) as [H|H]; rewrite H;
        eexists; reflexivity.
    + destruct nm as [|ch nm]; simpl; [eexists; reflexivity|].
      unfold add_phone. destruct (Phone_cases p) as [H|H]; rewrite H;
        eexists; reflexivity.
  - destruct args as [|nm [|o [|n rest]]]; try (eexists; reflexivity).
    run_handler. destruct (find book nm) as [r|]; simpl;
      [|eexists; reflexivity].
    unfold edit_phone.
    destruct (edit_phone_loop (phones r) o n) as [l|e] eqn:He; simpl;
      [eexists; reflexivity|].
    apply edit_phone_loop_raises in He as [msg ->]. eexists; reflexivity.
  - run_handler. destruct args as [|a args]; simpl;
      [eexists; reflexivity|].
    destruct (find book a); eexists; reflexivity.
  - run_handler. destruct book; eexists; reflexivity.
  - destruct args as [|nm [|b rest]]; try (eexists; reflexivity).
    run_handler. destruct (find book nm) as [r|]; simpl;
      [|eexists; reflexivity].
    unfold add_birthday_to.
    destruct (Birthday_cases b) as [(dt & _ & H)|[_ H]]; rewrite H;
      eexists; reflexivity.
  - run_handler. destruct args as [|a args]; simpl;
      [eexists; reflexivity|].
    destruct (find book a) as [[n ps [b|]]|]; eexists; reflexivity.
  - run_handler.
    destruct (get_upcoming_birthdays today book) as [[|e l]|e] eqn:He;
      try (eexists; reflexivity).
    apply get_upcoming_birthdays_raises in He as [msg ->].
    eexists; reflexivity.
Qed.

(** No handler lets an exception through: validation errors, missing
    contacts, missing arguments and the errors of the date library all
    come back as the string the handler returns.  In particular the
    shift of a congratulation day past a weekend never leaves the range
    of dates. *)
Theorem handlers_never_raise (today : date) (c : command)
        (args : list pystr) (book : AddressBook) :
  (exists s, fst (handler today c args book) = Ok s)
  /\ forall e, fst (handler today c args book) <> Raise e.
Proof.
  destruct (handler_answers today c args book) as [s Hs].
  split; [eauto | intros e; rewrite Hs; discriminate].
Qed.

(** On a book without a birthday on 29 February, in a year before the
    last one of the calendar, [get_upcoming_birthdays] returns the list of
    the records that are due, in the order of the book: a record with a
    birthday is due exactly when the next occurrence of the birthday, which
    is never before today, is at most seven days ahead, and its date is
    the congratulation day of that occurrence. *)
Theorem upcoming_birthdays_without_leap_days (today : date)
        (book : AddressBook) :
  valid today -> year today < MAXYEAR ->
  Forall regular (dict_values book) ->
  get_upcoming_birthdays today book =
    Ok (entries_of today (dict_values book))
  /\ forall r b p,
       In r (dict_values book) -> birthday r = Some b ->
       strptime b = Ok p ->
       valid (occurrence today p)
       /\ 0 <= sub_days (occurrence today p) today
       /\ upcoming_of today r =
          Ok (if sub_days (occurrence today p) today <=? 7
              then Some (mkEntry (name r)
                           (strftime (congratulation (occurrence today p))))
              else None).
Proof.
  intros Hv Hy Hreg.
  assert (Hy' : MINYEAR <= year today < MAXYEAR) by (destruct Hv; lia).
  split; [now apply get_upcoming_birthdays_regular|].
  intros r b p Hin Hb Hp.
  rewrite Forall_forall in Hreg. specialize (Hreg r Hin).
  unfold regular in Hreg. rewrite Hb in Hreg.
  destruct Hreg as (p' & Hp' & Hn). assert (p' = p) by congruence. subst p'.
  destruct (upcoming_of_regular today r b p Hy' Hb Hp Hn) as [Hvo Hu].
  assert (Hvp : valid p) by (apply strptime_Ok_iff in Hp; tauto).
  destruct (replace_year_regular p (year today) Hvp Hn ltac:(lia))
    as [_ Hvt].
  pose proof (occurrence_not_past today p Hv Hvt Hvo) as Hnp.
  split; [assumption|]. split; [assumption|].
  rewrite Hu. unfold in_window.
  apply Z.leb_le in Hnp. now rewrite Hnp.
Qed.

(** A birthday on 29 February makes the step of the loop raise on every
    day of a common year, and in a leap year on every day after 29
    February; it is handled only in a leap year up to that day.  When
    it raises, [get_upcoming_birthdays] raises for the whole book and
    [birthdays] answers the text of the exception, the book unchanged. *)
Theorem leap_day_birthday_raises (today : date) (book : AddressBook)
        (r : record) (b : pystr) (p : date) (args : list pystr) :
  In r (dict_values book) -> birthday r = Some b -> strptime b = Ok p ->
  leap_day p -> MINYEAR <= year today <= MAXYEAR ->
  let past := is_leap (year today) = false
              \/ Datetime.ltb (mkdate (year today) 2 29) today = true in
  ((exists e, upcoming_of today r = Raise e) <-> past)
  /\ (past ->
      exists msg,
        get_upcoming_birthdays today book = Raise (ValueError msg)
        /\ birthdays today args book = (Ok msg, book)).
Proof.
  intros Hin Hb Hp Hl Hy past.
  assert (Hraise : past -> exists e, upcoming_of today r = Raise e).
  { intros [Hc|Hlt].
    - destruct (leap_day_raises today book r b p Hin Hb Hp) as [H _];
        try tauto; eauto.
      + apply Hl.
      + apply Hl.
    - destruct (is_leap (year today)) eqn:El.
      + destruct (leap_day_raises_after today r b p Hb Hp Hl Hy El Hlt)
          as [msg H]. eauto.
      + destruct (leap_day_raises today book r b p Hin Hb Hp) as [H _];
          try tauto; eauto.
        * apply Hl.
        * apply Hl. }
  split; [split; [|exact Hraise]|].
  - intros [e He]. subst past.
    destruct (is_leap (year today)) eqn:El; [|now left]. right.
    destruct (Datetime.ltb (mkdate (year today) 2 29) today) eqn:Elt;
      [reflexivity|]. exfalso.
    unfold upcoming_of in He. rewrite Hb, Hp in He. cbn [rbind] in He.
    destruct Hl as [Hm Hd]. unfold replace_year in He. rewrite Hm, Hd in He.
    assert (H1 : date_new (year today) 2 29 = Ok (mkdate (year today) 2 29)).
    { apply date_new_Ok_iff. split; [reflexivity|].
      unfold valid, days_in_month. cbn [year month day]. rewrite El.
      cbn. lia. }
    rewrite H1 in He. cbn [rbind] in He. rewrite Elt in He.
    cbn [rbind] in He.
    rewrite upcoming_tail in He by (now apply date_new_Ok_iff in H1).
    discriminate.
  - intros Hpast. destruct (Hraise Hpast) as [e He].
    pose proof (upcoming_loop_raises today (dict_values book) r []
                  Hin (ex_intro _ e He)) as [e' He'].
    fold (get_upcoming_birthdays today book) in He'.
    destruct (get_upcoming_birthdays_raises _ _ _ He') as [msg ->].
    exists msg. split; [assumption|].
    run_handler. unfold get_upcoming_birthdays in He'. 
    unfold get_upcoming_birthdays. now rewrite He'.
Qed.

End Answers.

(* ================================================================= *)
(** * The command line *)

Lemma rev_token (t : N) (tok : pystr) :
  forallb (fun c => negb (isspace_cp c)) (t :: tok) = true ->
  token (rev (t :: tok)).
Proof.
  intros H. split.
  - intros E. apply (f_equal (@List.length _)) in E.
    rewrite length_rev in E. discriminate.
  - apply forallb_forall. intros c Hc. apply in_rev in Hc.
    rewrite forallb_forall in H. now apply H.
Qed.

(** [split] cuts the text into tokens and loses nothing but blanks. *)
Lemma split_loop_spec (s tok : pystr) :
  forallb (fun c => negb (isspace_cp c)) tok = true ->
  Forall token (split_loop tok s)
  /\ List.concat (split_loop tok s)
     = rev tok ++ filter (fun c => negb (isspace_cp c)) s.
Proof.
  revert tok. induction s as [|c s IH]; intros tok Ht; cbn [split_loop].
  - destruct tok as [|t tok].
    + split; [constructor | reflexivity].
    + split; [constructor; [now apply rev_token | constructor]|].
      cbn [List.concat filter]. now rewrite !app_nil_r.
  - cbn [filter]. destruct (isspace_cp c) eqn:Ec; cbn [negb].
    + destruct (IH [] eq_refl) as [IH1 IH2].
      destruct tok as [|t tok].
      * split; [assumption | exact IH2].
      * split; [constructor; [now apply rev_token | assumption]|].
        cbn [List.concat]. now rewrite IH2.
    + destruct (IH (c :: tok)) as [IH1 IH2].
      { cbn [forallb]. now rewrite Ec, Ht. }
      split; [assumption|]. rewrite IH2. cbn [rev].
      now rewrite <- app_assoc.
Qed.

Lemma lstrip_spec (s : pystr) :
  exists blanks,
    s = blanks ++ lstrip s
    /\ forallb isspace_cp blanks = true
    /\ match lstrip s with
       | c :: _ => isspace_cp c = false
       | [] => True
       end.
Proof.
  induction s as [|c s IH]; simpl.
  - exists []. auto.
  - destruct (isspace_cp c) eqn:Ec.
    + destruct IH as (bl & H1 & H2 & H3). exists (c :: bl). simpl.
      rewrite Ec, H2. repeat split; auto. now f_equal.
    + exists []. simpl. auto.
Qed.

Lemma lstrip_fixed (s : pystr) :
  match s with
  | c :: _ => isspace_cp c = false
  | [] => True
  end -> lstrip s = s.
Proof.
  destruct s as [|c s]; simpl; [reflexivity|]. now intros ->.
Qed.

(** [strip] leaves no blank at either end, and nothing to strip again. *)
Lemma strip_spec (s : pystr) :
  match strip s with
  | c :: _ => isspace_cp c = false
  | [] => True
  end
  /\ match rev (strip s) with
     | c :: _ => isspace_cp c = false
     | [] => True
     end
  /\ strip (strip s) = strip s.
Proof.
  unfold strip.
  destruct (lstrip_spec s) as (b1 & _ & _ & H1).
  set (a := lstrip s) in *.
  destruct (lstrip_spec (rev a)) as (b2 & E2 & _ & H2).
  set (b := lstrip (rev a)) in *.
  assert (Ea : a = rev b ++ rev b2).
  { rewrite <- rev_app_distr, <- E2. now rewrite rev_involutive. }
  assert (Hhead : match rev b with
                  | c :: _ => isspace_cp c = false
                  | [] => True
                  end).
  { destruct (rev b) as [|c l] eqn:Er; [exact I|].
    rewrite Ea in H1. exact H1. }
  split; [exact Hhead|]. split; [now rewrite rev_involutive|].
  rewrite (lstrip_fixed (rev b) Hhead), rev_involutive.
  now rewrite (lstrip_fixed b H2).
Qed.

Section CommandLine.

Context {U : UnicodeOps}.

Lemma parse_input_args (line : pystr) :
  Forall token (snd (parse_input line)).
Proof.
  unfold parse_input. cbn [snd].
  destruct (snd (split_first_space (strip line))) as [rest|];
    [|constructor].
  unfold split. now apply split_loop_spec.
Qed.

(** The arguments [parse_input] hands to a handler are never empty and
    hold no blank, whatever the line; put end to end they are the
    lowercased text after the command without its blanks; [main] strips
    the line before [parse_input] strips it again, which changes
    nothing. *)
Theorem parse_input_tokens (line : pystr) :
  Forall token (snd (parse_input line))
  /\ List.concat (snd (parse_input line))
     = match snd (split_first_space (strip line)) with
       | Some rest => filter (fun c => negb (isspace_cp c)) (lower rest)
       | None => []
       end
  /\ parse_input (strip line) = parse_input line.
Proof.
  split; [apply parse_input_args|]. split.
  - unfold parse_input. cbn [snd].
    destruct (snd (split_first_space (strip line))) as [rest|];
      [|reflexivity].
    unfold split. now destruct (split_loop_spec (lower rest) [] eq_refl).
  - unfold parse_input. destruct (strip_spec line) as (_ & _ & E).
    now rewrite E.
Qed.

(** Called on the arguments of a command line, [add] never meets an
    empty name: it answers its usage message, "Contact added.", "Contact
    updated." or the message of the validation of the phone. *)
Theorem add_from_command_line (line : pystr) (book : AddressBook) :
  let answer := fst (add_contact (snd (parse_input line)) book) in
  answer = Ok (lit "Write name and phone, please")
  \/ answer = Ok (lit "Contact added.")
  \/ answer = Ok (lit "Contact updated.")
  \/ answer = Ok (lit "Phone number must be 10 digits").
Proof.
  pose proof (parse_input_args line) as Htok.
  destruct (snd (parse_input line)) as [|nm [|p rest]]; cbv zeta;
    try (left; reflexivity).
  inversion Htok as [|? ? [Hne _] _]; subst.
  destruct (find book nm) as [r|] eqn:Hf.
  - destruct (Phone_cases p) as [Hp|Hp].
    + rewrite (add_contact_found _ _ _ _ _ Hf Hp). auto.
    + run_handler. rewrite Hf. simpl. unfold add_phone. rewrite Hp. auto.
  - destruct (Phone_cases p) as [Hp|Hp].
    + rewrite (add_contact_new _ _ _ _ Hf Hne Hp). auto.
    + assert (Hp' : Phone p <> Ok p) by (rewrite Hp; discriminate).
      rewrite (add_contact_new_invalid _ _ _ _ Hf Hne Hp'). auto.
Qed.

End CommandLine.

(* ================================================================= *)
(** * The loop of [main] *)

Section Loop.

Context {U : UnicodeOps}.




End Loop.

(* ================================================================= *)
(** * Instances *)

Lemma change_contact_replaces_first_witness :
  @change_contact basic_latin [lit "bob"; phone_a; phone_b] book_bob
  = (Ok (lit "Phone number updated."),
     [(lit "bob", mkRecord (lit "bob") [phone_b] None)]).
Proof.
  assert (Hn : ~ In phone_a []) by (intros []).
  destruct (@change_contact_replaces_first basic_latin book_bob (lit "bob")
              phone_a phone_b [] (mkRecord (lit "bob") [phone_a] None)
              [] [] eq_refl eq_refl Hn eq_refl) as (H1 & H2 & _).
  rewrite (surjective_pairing (change_contact _ _)), H1, H2. reflexivity.
Defined.

Lemma change_contact_invalid_new_witness :
  @change_contact basic_latin [lit "bob"; phone_a; lit "12"] book_bob
  = (Ok (lit "Phone number must be 10 digits"), book_bob).
Proof.
  apply (@change_contact_invalid_new basic_latin book_bob (lit "bob")
           phone_a (lit "12") [] (mkRecord (lit "bob") [phone_a] None)).
  - reflexivity.
  - simpl. now left.
  - discriminate.
Defined.

Lemma delete_exact_key_witness :
  dict_get (delete book_ann_bob (lit "ann")) (lit "ann") = None
  /\ dict_get (delete book_ann_bob (lit "ann")) (lit "bob")
     = dict_get book_ann_bob (lit "bob").
Proof.
  assert (Hnd : NoDup (map fst book_ann_bob)).
  { simpl. constructor.
    - intros [H|[]]. discriminate H.
    - constructor; [intros [] | constructor]. }
  destruct (@delete_exact_key basic_latin book_ann_bob (lit "ann") Hnd)
    as (H1 & H2 & _).
  split; [exact H1|]. apply H2. discriminate.
Defined.

Lemma add_birthday_then_show_witness :
  @show_birthday basic_latin [lit "bob"]
    (snd (@add_birthday basic_latin [lit "bob"; lit "1.1.2020"] book_bob))
  = (Ok (lit "1.1.2020"),
     snd (@add_birthday basic_latin [lit "bob"; lit "1.1.2020"] book_bob)).
Proof.
  destruct (@add_birthday_then_show basic_latin book_bob (lit "bob")
              (lit "1.1.2020") [] (mkRecord (lit "bob") [phone_a] None)
              eq_refl eq_refl) as (_ & _ & H).
  exact H.
Defined.

Lemma show_birthday_none_witness :
  @show_birthday basic_latin [lit "bob"] book_bob
  = (Ok (lit "No birthday found."), book_bob).
Proof.
  apply (@show_birthday_none basic_latin book_bob (lit "bob") []).
  right. exists (mkRecord (lit "bob") [phone_a] None).
  split; reflexivity.
Defined.

Lemma queries_leave_book_witness :
  snd (@handler basic_latin (mkdate 2023 6 10) CmdBirthdays [] book_ann_bob)
  = book_ann_bob.
Proof.
  apply (@queries_leave_book basic_latin (mkdate 2023 6 10) CmdBirthdays
           [] book_ann_bob).
  right. right. right. reflexivity.
Defined.

Lemma reachable_books_well_formed_witness :
  @wf_book basic_latin
    (snd (@handler basic_latin (mkdate 2024 6 10) CmdAdd
            [lit "bob"; phone_a] [])).
Proof.
  apply (@reachable_books_well_formed basic_latin).
  apply reachable_step, reachable_empty.
Defined.

Lemma upcoming_entries_on_weekdays_witness :
  exists occ,
    0 <= sub_days occ (mkdate 2024 6 10) <= 7
    /\ lit "17.06.2024" = strftime (congratulation occ)
    /\ 0 <= weekday (congratulation occ) < 5.
Proof.
  destruct (@upcoming_entries_on_weekdays basic_latin (mkdate 2024 6 10)
              book_al [mkEntry (lit "al") (lit "17.06.2024")]
              (mkEntry (lit "al") (lit "17.06.2024")) eq_refl
              (or_introl eq_refl))
    as (r & b & p & occ & _ & _ & _ & _ & _ & _ & _ & _ & Hw & He & _ & Hd
        & _).
  exists occ. auto.
Defined.

Lemma upcoming_birthdays_without_leap_days_witness :
  @get_upcoming_birthdays basic_latin (mkdate 2024 6 10) book_al
  = Ok [mkEntry (lit "al") (lit "17.06.2024")].
Proof.
  assert (Hv : valid (mkdate 2024 6 10)).
  { repeat split; vm_compute; congruence. }
  assert (Hy : year (mkdate 2024 6 10) < MAXYEAR) by reflexivity.
  assert (Hr : Forall (@regular basic_latin) (dict_values book_al)).
  { constructor; [|constructor].
    exists (mkdate 1985 6 15). split; [reflexivity|].
    intros [H _]. discriminate H. }
  destruct (@upcoming_birthdays_without_leap_days basic_latin
              (mkdate 2024 6 10) book_al Hv Hy Hr) as [H _].
  rewrite H. reflexivity.
Defined.

Lemma leap_day_birthday_raises_witness :
  exists msg,
    @birthdays basic_latin (mkdate 2024 3 1) [] book_leap
    = (Ok msg, book_leap).
Proof.
  assert (Hy : MINYEAR <= year (mkdate 2024 3 1) <= MAXYEAR)
    by (split; vm_compute; congruence).
  destruct (@leap_day_birthday_raises basic_latin (mkdate 2024 3 1)
              book_leap
              (mkRecord (lit "bob") [phone_a] (Some (lit "29.02.2020")))
              (lit "29.02.2020") (mkdate 2020 2 29) []
              (or_introl eq_refl) eq_refl eq_refl (conj eq_refl eq_refl) Hy)
    as [_ H].
  destruct (H (or_intror eq_refl)) as (msg & _ & Hb).
  exists msg. exact Hb.
Defined.
